(** * StreamHub local backend: the file-backed key-value store (kv-store.js)

    A shallow embedding of [kv-store.js] and the properties of its
    operations.  The module state ([store], [isInitialized]) is threaded
    explicitly; the file system and [process.env] are an environment that
    tells each call how its I/O turns out; exceptions are a constructor of
    the result, so that [try]/[catch] in the source is a handler here. *)

From Stdlib Require Import List String Ascii ZArith NArith Bool Lia.
Import ListNotations.
Open Scope string_scope.

(** ** JavaScript values and ordinary objects *)

Module JS.

#[local] Set Warnings "-register-all".

(** JSON-serializable documents, the values callers hand to [set].
    Numbers are restricted to integers. *)
Inductive json : Type :=
| JNull
| JBool (b : bool)
| JNum (n : Z)
| JStr (s : string)
| JArr (elems : list json)
| JObj (props : list (string * json)).

(** What a property read can produce: a document, [undefined], or one of the
    built-in functions and objects reachable through a prototype. *)
Inductive jsvalue : Type :=
| VUndefined
| VJson (j : json)
| VBuiltin (name : string).

Definition null : jsvalue := VJson JNull.

(** ToBoolean. *)
Definition ToBoolean (v : jsvalue) : bool :=
  match v with
  | VUndefined => false
  | VJson JNull => false
  | VJson (JBool b) => b
  | VJson (JNum n) => negb (n =? 0)%Z
  | VJson (JStr s) => negb (s =? "")
  | VJson (JArr _) => true
  | VJson (JObj _) => true
  | VBuiltin _ => true
  end.

(** [a || b]. *)
Definition logical_or (a b : jsvalue) : jsvalue :=
  if ToBoolean a then a else b.

(** *** Property keys *)

Definition digit (c : ascii) : option N :=
  let n := N_of_ascii c in
  if ((48 <=? n) && (n <=? 57))%N then Some (n - 48)%N else None.

Fixpoint digits (s : string) (acc : N) : option N :=
  match s with
  | EmptyString => Some acc
  | String c t =>
      match digit c with
      | Some d => digits t (10 * acc + d)%N
      | None => None
      end
  end.

(** An array index is a canonical numeric string whose value is at most
    2^32 - 2; own property keys that are array indices are enumerated
    first, in ascending numeric order. *)
Definition array_index (key : string) : option N :=
  match key with
  | EmptyString => None
  | String "0"%char EmptyString => Some 0%N
  | String "0"%char _ => None
  | _ =>
      match digits key 0 with
      | Some n => if (n <? 2 ^ 32 - 1)%N then Some n else None
      | None => None
      end
  end.

(** *** Own properties, kept in the order [Object.entries] lists them *)

Definition properties : Type := list (string * json).

Fixpoint lookup (key : string) (ps : properties) : option json :=
  match ps with
  | [] => None
  | (k, v) :: t => if k =? key then Some v else lookup key t
  end.

Definition has (key : string) (ps : properties) : bool :=
  match lookup key ps with Some _ => true | None => false end.

(** Overwriting an existing property keeps its place. *)
Fixpoint update (key : string) (v : json) (ps : properties) : properties :=
  match ps with
  | [] => []
  | (k, x) :: t =>
      if k =? key then (k, v) :: update key v t else (k, x) :: update key v t
  end.

Fixpoint insert_index (i : N) (key : string) (v : json) (ps : properties)
  : properties :=
  match ps with
  | [] => [(key, v)]
  | (k, x) :: t =>
      match array_index k with
      | Some j =>
          if (j <? i)%N then (k, x) :: insert_index i key v t
          else (key, v) :: ps
      | None => (key, v) :: ps
      end
  end.

(** Creating a property: an array index goes to its numeric place among the
    index keys, any other key to the end. *)
Definition create (key : string) (v : json) (ps : properties) : properties :=
  match array_index key with
  | Some i => insert_index i key v ps
  | None => (ps ++ [(key, v)])%list
  end.

(** CreateDataProperty. *)
Definition define (key : string) (v : json) (ps : properties) : properties :=
  if has key ps then update key v ps else create key v ps.

Definition remove (key : string) (ps : properties) : properties :=
  filter (fun p => negb (fst p =? key)) ps.

(** *** Prototypes *)

(** The [[Prototype]] of the store object: [Object.prototype] for an object
    literal or a parsed object, and whatever an assignment to [__proto__]
    has put there since. *)
Inductive prototype : Type :=
| ObjectPrototype
| NullPrototype
| JsonPrototype (j : json).

Record object : Type := mkObject {
  own : properties;
  proto : prototype
}.

(** [{}] *)
Definition empty_object : object :=
  {| own := []; proto := ObjectPrototype |}.

(** String-keyed own properties of [Object.prototype] (ECMAScript 2023,
    20.1.3 and B.2.2); all are data properties but the accessor
    [__proto__]. *)
Definition Object_prototype_names : list string :=
  [ "constructor"; "hasOwnProperty"; "isPrototypeOf"; "propertyIsEnumerable";
    "toLocaleString"; "toString"; "valueOf";
    "__defineGetter__"; "__defineSetter__";
    "__lookupGetter__"; "__lookupSetter__" ].

(** String-keyed own properties of [Array.prototype] (ECMAScript 2023,
    23.1.3), [length] apart. *)
Definition Array_prototype_names : list string :=
  [ "at"; "concat"; "constructor"; "copyWithin"; "entries"; "every"; "fill";
    "filter"; "find"; "findIndex"; "findLast"; "findLastIndex"; "flat";
    "flatMap"; "forEach"; "includes"; "indexOf"; "join"; "keys";
    "lastIndexOf"; "map"; "pop"; "push"; "reduce"; "reduceRight"; "reverse";
    "shift"; "slice"; "some"; "sort"; "splice"; "toLocaleString";
    "toReversed"; "toSorted"; "toSpliced"; "toString"; "unshift"; "values";
    "with" ].

Definition mem (key : string) (names : list string) : bool :=
  existsb (String.eqb key) names.

(** A read that reaches [Object.prototype]; the getter of [__proto__]
    answers with the prototype of the object the read started from. *)
Definition Object_prototype_get (receiver_proto : jsvalue) (key : string)
  : jsvalue :=
  if key =? "__proto__" then receiver_proto
  else if mem key Object_prototype_names
       then VBuiltin ("Object.prototype." ++ key)
       else VUndefined.

(** A read that found no own property and goes up the prototype chain. *)
Definition inherited (p : prototype) (key : string) : jsvalue :=
  match p with
  | NullPrototype => VUndefined
  | ObjectPrototype => Object_prototype_get (VBuiltin "Object.prototype") key
  | JsonPrototype (JObj props) =>
      match lookup key props with
      | Some x => VJson x
      | None => Object_prototype_get (VJson (JObj props)) key
      end
  | JsonPrototype (JArr elems) =>
      match array_index key with
      | Some i =>
          match nth_error elems (N.to_nat i) with
          | Some x => VJson x
          | None => VUndefined
          end
      | None =>
          if key =? "length" then VJson (JNum (Z.of_nat (List.length elems)))
          else if mem key Array_prototype_names
               then VBuiltin ("Array.prototype." ++ key)
               else Object_prototype_get (VJson (JArr elems)) key
      end
  | JsonPrototype _ => VUndefined
  end.

(** [o[key]] *)
Definition Get (o : object) (key : string) : jsvalue :=
  match lookup key (own o) with
  | Some v => VJson v
  | None => inherited (proto o) key
  end.

(** Does an assignment to [__proto__] that finds no own property reach the
    setter on [Object.prototype]?  A data property of that name on the way
    (a parsed object can have one) shadows it. *)
Definition reaches_proto_setter (p : prototype) : bool :=
  match p with
  | NullPrototype => false
  | ObjectPrototype => true
  | JsonPrototype (JObj props) => negb (has "__proto__" props)
  | JsonPrototype _ => true
  end.

(** The setter of [__proto__]: an object or [null] becomes the prototype,
    any other value is ignored. *)
Definition set_prototype (o : object) (v : json) : object :=
  match v with
  | JNull => {| own := own o; proto := NullPrototype |}
  | JArr _ | JObj _ => {| own := own o; proto := JsonPrototype v |}
  | _ => o
  end.

(** [o[key] = v] *)
Definition Put (o : object) (key : string) (v : json) : object :=
  if has key (own o) then {| own := update key v (own o); proto := proto o |}
  else if (key =? "__proto__") && reaches_proto_setter (proto o)
       then set_prototype o v
       else {| own := create key v (own o); proto := proto o |}.

(** [delete o[key]] *)
Definition Delete (o : object) (key : string) : object :=
  {| own := remove key (own o); proto := proto o |}.

(** [Object.entries(o)] *)
Definition entries (o : object) : properties := own o.

(** [key.startsWith(prefix)] *)
Definition startsWith (key prefix : string) : bool := String.prefix prefix key.

End JS.

(** ** The store module *)

Module KvStore.
Import JS.

(** One element of the array [getByPrefix] builds: [{ key, value }]. *)
Record entry : Type := mkEntry {
  key : string;
  value : json
}.

(** The module's variables, and what has been written to the console. *)
Record world : Type := mkWorld {
  store : object;
  isInitialized : bool;
  console : list string
}.

(** [let store = {}; let isInitialized = false;] *)
Definition initial : world :=
  {| store := empty_object; isInitialized := false; console := [] |}.

Inductive error : Type :=
| FsError
| SyntaxError.

(** The text of the snapshot file, as [JSON.parse] sees it.  [saveStore]
    only ever writes the serialization of an object; a text that parses to
    some other JSON value is not covered. *)
Inductive document : Type :=
| Unparsable
| ObjectText (props : properties).

(** What one call meets outside the module: [process.env.NODE_ENV], and how
    the file system answers. *)
Record env : Type := mkEnv {
  production : bool;
  mkdir_fails : bool;
  data_file : option document;
  writeFile_fails : bool
}.

(** *** Results, exceptions and handlers *)

Inductive outcome (A : Type) : Type :=
| Returns (a : A) (w : world)
| Throws (e : error) (w : world).
Arguments Returns {A} a w.
Arguments Throws {A} e w.

Definition M (A : Type) : Type := env -> world -> outcome A.

Definition ret {A : Type} (a : A) : M A := fun _ w => Returns a w.

Definition bind {A B : Type} (m : M A) (k : A -> M B) : M B :=
  fun e w =>
    match m e w with
    | Returns a w' => k a e w'
    | Throws x w' => Throws x w'
    end.

Definition throw {A : Type} (x : error) : M A := fun _ w => Throws x w.

(** [try { body } catch (error) { handler }] *)
Definition try_catch {A : Type} (body : M A) (handler : error -> M A) : M A :=
  fun e w =>
    match body e w with
    | Returns a w' => Returns a w'
    | Throws x w' => handler x e w'
    end.

Declare Scope js_scope.
Delimit Scope js_scope with js.
Notation "x <- m ;; k" := (bind m (fun x => k))
  (at level 100, m at next level, right associativity) : js_scope.
Notation "m ;; k" := (bind m (fun _ => k))
  (at level 100, right associativity) : js_scope.
Local Open Scope js_scope.

Definition read {A : Type} (f : world -> A) : M A := fun _ w => Returns (f w) w.
Definition ask {A : Type} (f : env -> A) : M A := fun e w => Returns (f e) w.

Definition assign_store (o : object) : M unit :=
  fun _ w =>
    Returns tt {| store := o; isInitialized := isInitialized w;
                  console := console w |}.

Definition assign_isInitialized (b : bool) : M unit :=
  fun _ w =>
    Returns tt {| store := store w; isInitialized := b; console := console w |}.

Definition console_log (msg : string) : M unit :=
  fun _ w =>
    Returns tt {| store := store w; isInitialized := isInitialized w;
                  console := (console w ++ [msg])%list |}.

Definition console_error (msg : string) (x : error) : M unit :=
  console_log msg.

(** [for (const x of xs) { body }] *)
Fixpoint for_of {A : Type} (xs : list A) (body : A -> M unit) : M unit :=
  match xs with
  | [] => ret tt
  | x :: t => body x ;; for_of t body
  end.

(** *** The environment's side *)

Definition fs_mkdir : M unit :=
  fails <- ask mkdir_fails ;;
  if fails then throw FsError else ret tt.

Definition fs_readFile : M document :=
  file <- ask data_file ;;
  match file with
  | Some text => ret text
  | None => throw FsError
  end.

Definition fs_writeFile (text : document) : M unit :=
  fails <- ask writeFile_fails ;;
  if fails then throw FsError else ret tt.

(** A parsed object gets its members by CreateDataProperty, in the order of
    the text. *)
Definition JSON_parse (text : document) : M object :=
  match text with
  | Unparsable => throw SyntaxError
  | ObjectText props =>
      ret {| own := fold_left (fun acc p => define (fst p) (snd p) acc) props [];
             proto := ObjectPrototype |}
  end.

(** The serialization lists the own properties. *)
Definition JSON_stringify (o : object) : document := ObjectText (own o).

(** *** kv-store.js *)

Definition initializeStore : M unit :=
  initialized <- read isInitialized ;;
  if initialized then ret tt
  else
    prod <- ask production ;;
    if prod then
      assign_store empty_object ;;
      assign_isInitialized true ;;
      console_log "KV store initialized in-memory for production"
    else
      try_catch
        (fs_mkdir ;;
         try_catch
           (data <- fs_readFile ;;
            parsed <- JSON_parse data ;;
            assign_store parsed ;;
            console_log "KV store loaded from file")
           (fun _ =>
              assign_store empty_object ;;
              console_log "KV store initialized with empty data") ;;
         assign_isInitialized true)
        (fun x =>
           console_error "Error initializing KV store:" x ;;
           assign_store empty_object ;;
           assign_isInitialized true).

(** [if (!isInitialized) await initializeStore();], the first line of every
    other function. *)
Definition ensure_initialized : M unit :=
  initialized <- read isInitialized ;;
  if initialized then ret tt else initializeStore.

Definition saveStore : M unit :=
  ensure_initialized ;;
  prod <- ask production ;;
  if prod then ret tt
  else
    try_catch
      (s <- read store ;; fs_writeFile (JSON_stringify s))
      (fun x => console_error "Error saving KV store:" x).

Definition get (key : string) : M jsvalue :=
  ensure_initialized ;;
  s <- read store ;;
  ret (logical_or (Get s key) null).

Definition set (key : string) (value : json) : M unit :=
  ensure_initialized ;;
  s <- read store ;;
  assign_store (Put s key value) ;;
  saveStore.

Definition del (key : string) : M unit :=
  ensure_initialized ;;
  s <- read store ;;
  assign_store (Delete s key) ;;
  saveStore.

Definition mget (keys : list string) : M (list jsvalue) :=
  ensure_initialized ;;
  s <- read store ;;
  ret (map (fun key => logical_or (Get s key) null) keys).

Definition mset (keyValuePairs : list (string * json)) : M unit :=
  ensure_initialized ;;
  for_of keyValuePairs
    (fun '(key, value) =>
       s <- read store ;; assign_store (Put s key value)) ;;
  saveStore.

Definition mdel (keys : list string) : M unit :=
  ensure_initialized ;;
  for_of keys (fun key => s <- read store ;; assign_store (Delete s key)) ;;
  saveStore.

Definition getByPrefix (prefix : string) : M (list entry) :=
  ensure_initialized ;;
  s <- read store ;;
  ret (fold_left
         (fun results '(key, value) =>
            if startsWith key prefix
            then (results ++ [{| key := key; value := value |}])%list
            else results)
         (entries s) []).

(** *** Running calls one after the other *)

(** The world a call leaves behind, however it ends. *)
Definition after {A : Type} (o : outcome A) : world :=
  match o with
  | Returns _ w => w
  | Throws _ w => w
  end.

(** What the caller's [await] receives; [None] when the call throws. *)
Definition returned {A : Type} (o : outcome A) : option A :=
  match o with
  | Returns a _ => Some a
  | Throws _ _ => None
  end.

(** The world in which the body of a call runs, its first line done. *)
Definition boot (e : env) (w : world) : world :=
  after (ensure_initialized e w).

(** The calls the module offers, and the timer's [saveStore]. *)
Inductive call : Type :=
| CallGet (key : string)
| CallMget (keys : list string)
| CallGetByPrefix (prefix : string)
| CallSet (key : string) (value : json)
| CallDel (key : string)
| CallMset (keyValuePairs : list (string * json))
| CallMdel (keys : list string)
| TimerSave.

Definition perform (c : call) (e : env) (w : world) : world :=
  match c with
  | CallGet k => after (get k e w)
  | CallMget ks => after (mget ks e w)
  | CallGetByPrefix p => after (getByPrefix p e w)
  | CallSet k v => after (set k v e w)
  | CallDel k => after (del k e w)
  | CallMset kvs => after (mset kvs e w)
  | CallMdel ks => after (mdel ks e w)
  | TimerSave => after (saveStore e w)
  end.

(** Does the call write or remove the key? *)
Definition targets (c : call) (k : string) : bool :=
  match c with
  | CallSet k' _ => k' =? k
  | CallDel k' => k' =? k
  | CallMset kvs => existsb (fun p => fst p =? k) kvs
  | CallMdel ks => existsb (fun k' => k' =? k) ks
  | _ => false
  end.

(** A sequence of calls, each with the environment it meets. *)
Fixpoint run (cs : list (call * env)) (w : world) : world :=
  match cs with
  | [] => w
  | (c, e) :: t => run t (perform c e w)
  end.

(** [del(key)] called once for every environment of the list. *)
Definition del_repeatedly (k : string) (es : list env) (w : world) : world :=
  run (map (fun e => (CallDel k, e)) es) w.

(** Environments and worlds used as examples. *)
Definition dev_no_snapshot : env :=
  {| production := false; mkdir_fails := false; data_file := None;
     writeFile_fails := false |}.

Definition dev_corrupt_snapshot : env :=
  {| production := false; mkdir_fails := false; data_file := Some Unparsable;
     writeFile_fails := false |}.

Definition with_writeFile_fails (b : bool) (e : env) : env :=
  {| production := production e; mkdir_fails := mkdir_fails e;
     data_file := data_file e; writeFile_fails := b |}.

Definition holding (ps : properties) : world :=
  {| store := {| own := ps; proto := ObjectPrototype |};
     isInitialized := true; console := [] |}.

(** *** Vocabulary of the statements *)

(** The element [getByPrefix] pushes for one pair of [Object.entries]. *)
Definition to_entry (p : string * json) : entry :=
  {| key := fst p; value := snd p |}.

(** The store object once the loop of [mset] has run over the pairs. *)
Definition Put_all (kvs : list (string * json)) (o : object) : object :=
  fold_left (fun s p => Put s (fst p) (snd p)) kvs o.

(** The store object once the loop of [mdel] has run over the keys. *)
Definition Delete_all (ks : list string) (o : object) : object :=
  fold_left Delete ks o.

(** A call that ends the same way, and leaves the same variables, whether
    [fs.writeFile] fails or not. *)
Definition unaffected_by_write_failure (m : M unit) : Prop :=
  forall e w,
    let failing := m (with_writeFile_fails true e) w in
    let writing := m (with_writeFile_fails false e) w in
    returned failing = Some tt /\
    returned writing = Some tt /\
    store (after failing) = store (after writing) /\
    isInitialized (after failing) = isInitialized (after writing).

(** The property keys of an object are pairwise distinct. *)
Definition distinct_keys (ps : properties) : Prop := NoDup (map fst ps).

(** The world once a message is on the console, and once the store
    variable is assigned. *)
Definition logged (msg : string) (w : world) : world :=
  {| store := store w; isInitialized := isInitialized w;
     console := (console w ++ [msg])%list |}.

Definition assigned (o : object) (w : world) : world :=
  {| store := o; isInitialized := isInitialized w; console := console w |}.

(** The world [saveStore] leaves when it finds the store initialized: only
    a failed write outside production shows, as a line on the console. *)
Definition saved (e : env) (w : world) : world :=
  if negb (production e) && writeFile_fails e
  then logged "Error saving KV store:" w
  else w.

(** The binding a list of pairs gives a key when later pairs win. *)
Definition last_binding (key : string) (kvs : list (string * json))
  : option json :=
  lookup key (rev kvs).

(** None of the calls writes or removes the key. *)
Definition untargeted (k : string) (cs : list (call * env)) : bool :=
  forallb (fun ce => negb (targets (fst ce) k)) cs.

(** [set] called for each pair in turn, and [del] for each key. *)
Definition set_each (kvs : list (string * json)) (e : env)
  : list (call * env) :=
  map (fun p => (CallSet (fst p) (snd p), e)) kvs.

Definition del_each (ks : list string) (e : env) : list (call * env) :=
  map (fun k => (CallDel k, e)) ks.

(** The same environment with other answers from [fs.mkdir] and
    [fs.readFile]. *)
Definition with_files (mk : bool) (file : option document) (e : env) : env :=
  {| production := production e; mkdir_fails := mk; data_file := file;
     writeFile_fails := writeFile_fails e |}.

(** A development environment whose snapshot file holds what [saveStore]
    writes for the object. *)
Definition snapshot_of (o : object) : env :=
  {| production := false; mkdir_fails := false;
     data_file := Some (JSON_stringify o); writeFile_fails := false |}.

(** An index above the bound, if there is one. *)
Definition below (b : option N) (i : N) : Prop :=
  match b with
  | Some j => (j < i)%N
  | None => True
  end.

(** The order [Object.entries] gives: the array indices first, ascending,
    then the other keys; no key twice. *)
Definition plain (p : string * json) : bool :=
  match array_index (fst p) with
  | Some _ => false
  | None => true
  end.

Fixpoint ascending_from (bound : option N) (ps : properties) : bool :=
  match ps with
  | [] => true
  | (k, _) :: t =>
      match array_index k with
      | Some i =>
          match bound with
          | Some b => (b <? i)%N && ascending_from (Some i) t
          | None => ascending_from (Some i) t
          end
      | None => forallb plain t
      end
  end.

Definition entries_order (ps : properties) : Prop :=
  distinct_keys ps /\ ascending_from None ps = true.

End KvStore.

(** * Properties *)

Import JS KvStore.
Local Open Scope js_scope.

(** Unfolds the sequencing of statements, the handlers and the environment's
    answers, down to the case analysis the source's control flow makes. *)
Ltac unfold_calls :=
  cbv beta iota delta
    [initializeStore saveStore bind read ask ret throw try_catch
     fs_mkdir fs_readFile fs_writeFile JSON_parse JSON_stringify
     assign_store assign_isInitialized console_log console_error after].

(** ** Own properties *)

Section Properties.

Implicit Types (k key : string) (v x : json) (ps : properties).

Lemma lookup_In key v ps : lookup key ps = Some v -> In (key, v) ps.
Proof.
  induction ps as [|[k x] t IH]; simpl; [discriminate|].
  destruct (String.eqb_spec k key) as [->|_].
  - intros [= ->]. now left.
  - intros H. right. auto.
Qed.

Lemma has_true key ps : has key ps = true <-> exists v, lookup key ps = Some v.
Proof.
  unfold has. destruct (lookup key ps) as [v|]; split; try discriminate; eauto.
  intros [v [=]].
Qed.

Lemma has_false key ps : has key ps = false <-> lookup key ps = None.
Proof.
  unfold has. destruct (lookup key ps); split; congruence.
Qed.

Lemma lookup_update_same key v ps :
  has key ps = true -> lookup key (update key v ps) = Some v.
Proof.
  unfold has. induction ps as [|[k x] t IH]; simpl; [discriminate|].
  destruct (String.eqb_spec k key) as [->|Hne]; simpl.
  - now rewrite String.eqb_refl.
  - destruct (String.eqb_spec k key); [contradiction|]. exact IH.
Qed.

Lemma lookup_update_other k key v ps :
  k <> key -> lookup k (update key v ps) = lookup k ps.
Proof.
  intros Hne. induction ps as [|[k' x] t IH]; simpl; [reflexivity|].
  destruct (String.eqb_spec k' key) as [->|_]; simpl.
  - destruct (String.eqb_spec key k); [congruence|]. exact IH.
  - now rewrite IH.
Qed.

Lemma lookup_app_absent key v ps :
  lookup key ps = None -> lookup key (ps ++ [(key, v)])%list = Some v.
Proof.
  induction ps as [|[k x] t IH]; simpl.
  - now rewrite String.eqb_refl.
  - destruct (k =? key); [discriminate|]. exact IH.
Qed.

Lemma lookup_app_other k key v ps :
  k <> key -> lookup k (ps ++ [(key, v)])%list = lookup k ps.
Proof.
  intros Hne. induction ps as [|[k' x] t IH]; simpl.
  - destruct (String.eqb_spec key k); congruence.
  - now rewrite IH.
Qed.

Lemma lookup_insert_index_same i key v ps :
  array_index key = Some i -> lookup key (insert_index i key v ps) = Some v.
Proof.
  intros Hi. induction ps as [|[k x] t IH]; simpl.
  - now rewrite String.eqb_refl.
  - destruct (array_index k) as [j|] eqn:Hk; simpl.
    + destruct (N.ltb_spec j i) as [Hlt|_]; simpl.
      * destruct (String.eqb_spec k key) as [->|_]; [|exact IH].
        rewrite Hi in Hk. injection Hk as ->. lia.
      * now rewrite String.eqb_refl.
    + now rewrite String.eqb_refl.
Qed.

Lemma lookup_insert_index_other i k key v ps :
  k <> key -> lookup k (insert_index i key v ps) = lookup k ps.
Proof.
  intros Hne. induction ps as [|[k' x] t IH]; simpl.
  - destruct (String.eqb_spec key k); congruence.
  - destruct (array_index k') as [j|]; simpl.
    + destruct (j <? i)%N; simpl.
      * now rewrite IH.
      * destruct (String.eqb_spec key k); congruence.
    + destruct (String.eqb_spec key k); congruence.
Qed.

Lemma lookup_create_same key v ps :
  lookup key ps = None -> lookup key (create key v ps) = Some v.
Proof.
  intros Habs. unfold create. destruct (array_index key) eqn:Hi.
  - now apply lookup_insert_index_same.
  - now apply lookup_app_absent.
Qed.

Lemma lookup_create_other k key v ps :
  k <> key -> lookup k (create key v ps) = lookup k ps.
Proof.
  intros Hne. unfold create. destruct (array_index key).
  - now apply lookup_insert_index_other.
  - now apply lookup_app_other.
Qed.

Lemma lookup_remove_same key ps : lookup key (remove key ps) = None.
Proof.
  induction ps as [|[k x] t IH]; simpl; [reflexivity|].
  destruct (String.eqb_spec k key) as [->|Hne]; simpl; [exact IH|].
  destruct (String.eqb_spec k key); [contradiction|]. exact IH.
Qed.

Lemma lookup_remove_other k key ps :
  k <> key -> lookup k (remove key ps) = lookup k ps.
Proof.
  intros Hne. induction ps as [|[k' x] t IH]; simpl; [reflexivity|].
  destruct (String.eqb_spec k' key) as [->|_]; simpl.
  - destruct (String.eqb_spec key k); [congruence|]. exact IH.
  - now rewrite IH.
Qed.

Lemma remove_absent key ps : lookup key ps = None -> remove key ps = ps.
Proof.
  induction ps as [|[k x] t IH]; simpl; [reflexivity|].
  destruct (String.eqb_spec k key) as [->|_]; simpl; [discriminate|].
  intros H. now rewrite IH.
Qed.

Lemma remove_idempotent key ps : remove key (remove key ps) = remove key ps.
Proof. apply remove_absent, lookup_remove_same. Qed.

End Properties.

(** ** Assignment and deletion on the store object *)

Section Objects.

Implicit Types (k key : string) (v x : json) (o : object).

Lemma Put_lookup_same o key v :
  key <> "__proto__" -> lookup key (own (Put o key v)) = Some v.
Proof.
  intros Hne. unfold Put. destruct (has key (own o)) eqn:Hhas; simpl.
  - now apply lookup_update_same.
  - destruct (String.eqb_spec key "__proto__"); [contradiction|]. simpl.
    apply lookup_create_same. now apply has_false.
Qed.

Lemma Put_lookup_other o k key v :
  k <> key -> lookup k (own (Put o key v)) = lookup k (own o).
Proof.
  intros Hne. unfold Put. destruct (has key (own o)); simpl.
  - now apply lookup_update_other.
  - destruct ((key =? "__proto__") && reaches_proto_setter (proto o)).
    + unfold set_prototype. now destruct v.
    + simpl. now apply lookup_create_other.
Qed.

Lemma Put_all_lookup_other k kvs o :
  existsb (fun p => fst p =? k) kvs = false ->
  lookup k (own (Put_all kvs o)) = lookup k (own o).
Proof.
  unfold Put_all. revert o. induction kvs as [|[k' v] t IH]; simpl; intros o H.
  - reflexivity.
  - apply orb_false_iff in H as [Hk Ht]. rewrite IH by exact Ht.
    apply Put_lookup_other. intros ->. now rewrite String.eqb_refl in Hk.
Qed.

Lemma Delete_all_lookup_other k ks o :
  existsb (fun k' => k' =? k) ks = false ->
  lookup k (own (Delete_all ks o)) = lookup k (own o).
Proof.
  unfold Delete_all. revert o. induction ks as [|k' t IH]; simpl; intros o H.
  - reflexivity.
  - apply orb_false_iff in H as [Hk Ht]. rewrite IH by exact Ht.
    simpl. apply lookup_remove_other. intros ->.
    now rewrite String.eqb_refl in Hk.
Qed.

Lemma Delete_idempotent o key : Delete (Delete o key) key = Delete o key.
Proof. unfold Delete. simpl. now rewrite remove_idempotent. Qed.

End Objects.

(** ** How each call runs *)

Section Calls.

Implicit Types (k key prefix : string) (v : json) (e : env) (w : world).

Lemma initializeStore_returns e w :
  initializeStore e w = Returns tt (after (initializeStore e w)).
Proof.
  unfold_calls.
  destruct (isInitialized w); [reflexivity|].
  destruct (production e); [reflexivity|].
  destruct (mkdir_fails e); [reflexivity|].
  destruct (data_file e) as [[|props]|]; reflexivity.
Qed.

Lemma initializeStore_initialized e w :
  isInitialized (after (initializeStore e w)) = true.
Proof.
  unfold_calls.
  destruct (isInitialized w) eqn:Hw; [exact Hw|].
  destruct (production e); [reflexivity|].
  destruct (mkdir_fails e); [reflexivity|].
  destruct (data_file e) as [[|props]|]; reflexivity.
Qed.

Lemma ensure_initialized_returns e w :
  ensure_initialized e w = Returns tt (boot e w).
Proof.
  unfold boot, ensure_initialized, bind, read, ret.
  destruct (isInitialized w); [reflexivity|].
  now rewrite initializeStore_returns.
Qed.

Lemma boot_initialized e w : isInitialized (boot e w) = true.
Proof.
  unfold boot, ensure_initialized, bind, read, ret.
  destruct (isInitialized w) eqn:Hw; [exact Hw|].
  apply initializeStore_initialized.
Qed.

Lemma boot_idle e w : isInitialized w = true -> boot e w = w.
Proof.
  intros Hw. unfold boot, ensure_initialized, bind, read, ret.
  now rewrite Hw.
Qed.

Lemma boot_boot e e' w : boot e' (boot e w) = boot e w.
Proof. apply boot_idle, boot_initialized. Qed.

(** The first line of every function, then the rest of its body. *)
Lemma bind_ensure_initialized {A : Type} (rest : unit -> M A) e w :
  bind ensure_initialized rest e w = rest tt e (boot e w).
Proof. unfold bind. now rewrite ensure_initialized_returns. Qed.

Lemma saveStore_initialized_returns e w :
  isInitialized w = true ->
  saveStore e w = Returns tt (after (saveStore e w)) /\
  store (after (saveStore e w)) = store w /\
  isInitialized (after (saveStore e w)) = true.
Proof.
  intros Hw. unfold saveStore. rewrite bind_ensure_initialized.
  rewrite (boot_idle e w Hw).
  unfold_calls.
  destruct (production e); [now simpl|].
  destruct (writeFile_fails e); now simpl.
Qed.

Lemma saveStore_returns e w :
  saveStore e w = Returns tt (after (saveStore e w)) /\
  store (after (saveStore e w)) = store (boot e w) /\
  isInitialized (after (saveStore e w)) = true.
Proof.
  assert (Hsame : saveStore e w = saveStore e (boot e w)).
  { unfold saveStore. rewrite !bind_ensure_initialized.
    now rewrite boot_boot. }
  rewrite Hsame. apply saveStore_initialized_returns, boot_initialized.
Qed.

Lemma get_returns key e w :
  get key e w = Returns (logical_or (Get (store (boot e w)) key) null) (boot e w).
Proof. unfold get. now rewrite bind_ensure_initialized. Qed.

Lemma mget_returns keys e w :
  mget keys e w =
  Returns (map (fun key => logical_or (Get (store (boot e w)) key) null) keys)
          (boot e w).
Proof. unfold mget. now rewrite bind_ensure_initialized. Qed.

Lemma scan_is_filter prefix (ps : properties) (acc : list entry) :
  fold_left
    (fun results '(key, value) =>
       if startsWith key prefix
       then (results ++ [{| key := key; value := value |}])%list
       else results)
    ps acc =
  (acc ++ map to_entry (filter (fun p => startsWith (fst p) prefix) ps))%list.
Proof.
  revert acc. induction ps as [|[k v] t IH]; intros acc; simpl.
  - now rewrite app_nil_r.
  - rewrite IH. destruct (startsWith k prefix); simpl; [|reflexivity].
    now rewrite <- app_assoc.
Qed.

Lemma getByPrefix_returns prefix e w :
  getByPrefix prefix e w =
  Returns (map to_entry
             (filter (fun p => startsWith (fst p) prefix)
                     (entries (store (boot e w)))))
          (boot e w).
Proof.
  unfold getByPrefix. rewrite bind_ensure_initialized.
  unfold bind, read, ret. now rewrite scan_is_filter.
Qed.

(** A mutation of the store object followed by [saveStore]. *)
Lemma assign_then_save (o : object) e w :
  isInitialized w = true ->
  let m := (assign_store o ;; saveStore) in
  m e w = Returns tt (after (m e w)) /\
  store (after (m e w)) = o /\
  isInitialized (after (m e w)) = true.
Proof.
  intros Hw m. unfold m, bind, assign_store.
  set (w' := {| store := o; isInitialized := isInitialized w;
                console := console w |}).
  destruct (saveStore_initialized_returns e w' Hw) as (Hr & Hs & Hi).
  rewrite Hr. simpl. auto.
Qed.

Lemma set_returns key v e w :
  set key v e w = Returns tt (after (set key v e w)) /\
  store (after (set key v e w)) = Put (store (boot e w)) key v /\
  isInitialized (after (set key v e w)) = true.
Proof.
  unfold set. rewrite bind_ensure_initialized.
  change (bind (read store) ?f e (boot e w)) with (f (store (boot e w)) e (boot e w)).
  apply assign_then_save, boot_initialized.
Qed.

Lemma del_returns key e w :
  del key e w = Returns tt (after (del key e w)) /\
  store (after (del key e w)) = Delete (store (boot e w)) key /\
  isInitialized (after (del key e w)) = true.
Proof.
  unfold del. rewrite bind_ensure_initialized.
  change (bind (read store) ?f e (boot e w)) with (f (store (boot e w)) e (boot e w)).
  apply assign_then_save, boot_initialized.
Qed.

Lemma for_of_Put (kvs : list (string * json)) e w :
  for_of kvs (fun '(key, value) =>
                s <- read store ;; assign_store (Put s key value)) e w =
  Returns tt {| store := Put_all kvs (store w);
                isInitialized := isInitialized w; console := console w |}.
Proof.
  revert w. induction kvs as [|[k v] t IH]; intros w.
  - now destruct w.
  - cbn [for_of]. unfold bind at 1. unfold bind at 1.
    unfold read at 1, assign_store at 1. now rewrite IH.
Qed.

Lemma for_of_Delete (keys : list string) e w :
  for_of keys (fun key => s <- read store ;; assign_store (Delete s key)) e w =
  Returns tt {| store := Delete_all keys (store w);
                isInitialized := isInitialized w; console := console w |}.
Proof.
  revert w. induction keys as [|k t IH]; intros w.
  - now destruct w.
  - cbn [for_of]. unfold bind at 1. unfold bind at 1.
    unfold read at 1, assign_store at 1. now rewrite IH.
Qed.

Lemma mset_returns (kvs : list (string * json)) e w :
  mset kvs e w = Returns tt (after (mset kvs e w)) /\
  store (after (mset kvs e w)) = Put_all kvs (store (boot e w)) /\
  isInitialized (after (mset kvs e w)) = true.
Proof.
  unfold mset. rewrite bind_ensure_initialized.
  unfold bind. rewrite for_of_Put.
  apply (saveStore_initialized_returns e
           {| store := _; isInitialized := _; console := _ |}).
  simpl. apply boot_initialized.
Qed.

Lemma mdel_returns (keys : list string) e w :
  mdel keys e w = Returns tt (after (mdel keys e w)) /\
  store (after (mdel keys e w)) = Delete_all keys (store (boot e w)) /\
  isInitialized (after (mdel keys e w)) = true.
Proof.
  unfold mdel. rewrite bind_ensure_initialized.
  unfold bind. rewrite for_of_Delete.
  apply (saveStore_initialized_returns e
           {| store := _; isInitialized := _; console := _ |}).
  simpl. apply boot_initialized.
Qed.

End Calls.

(** ** What a caller observes *)

Section Observations.

Implicit Types (k key prefix : string) (v : json) (e : env) (w : world).

Lemma get_initialized key e w :
  isInitialized w = true ->
  returned (get key e w) = Some (logical_or (Get (store w) key) null).
Proof. intros Hw. now rewrite get_returns, (boot_idle e w Hw). Qed.

Lemma mget_initialized keys e w :
  isInitialized w = true ->
  returned (mget keys e w) =
  Some (map (fun key => logical_or (Get (store w) key) null) keys).
Proof. intros Hw. now rewrite mget_returns, (boot_idle e w Hw). Qed.

Lemma getByPrefix_initialized prefix e w :
  isInitialized w = true ->
  returned (getByPrefix prefix e w) =
  Some (map to_entry
          (filter (fun p => startsWith (fst p) prefix) (entries (store w)))).
Proof. intros Hw. now rewrite getByPrefix_returns, (boot_idle e w Hw). Qed.

(** [fs.writeFile] is not called before the store is initialized. *)
Lemma boot_with_writeFile_fails b e w : boot (with_writeFile_fails b e) w = boot e w.
Proof.
  destruct e as [prod mk file wf]. destruct w as [s [|] c]; [reflexivity|].
  destruct prod; [reflexivity|].
  destruct mk; [reflexivity|].
  destruct file as [[|props]|]; reflexivity.
Qed.

Lemma del_repeatedly_store k es :
  forall w o,
    isInitialized w = true -> store w = Delete o k ->
    store (del_repeatedly k es w) = Delete o k /\
    isInitialized (del_repeatedly k es w) = true.
Proof.
  unfold del_repeatedly.
  induction es as [|e t IH]; intros w o Hw Hs; simpl; [auto|].
  destruct (del_returns k e w) as (_ & Hs' & Hi').
  apply IH; [exact Hi'|].
  now rewrite Hs', (boot_idle e w Hw), Hs, Delete_idempotent.
Qed.

(** A call that returns and whose store is a function of the store its body
    found does not depend on how the write turns out. *)
Lemma unaffected_intro (m : M unit) (f : object -> object) :
  (forall e w,
     m e w = Returns tt (after (m e w)) /\
     store (after (m e w)) = f (store (boot e w)) /\
     isInitialized (after (m e w)) = true) ->
  unaffected_by_write_failure m.
Proof.
  intros H e w failing writing. unfold failing, writing.
  destruct (H (with_writeFile_fails true e) w) as (Hr1 & Hs1 & Hi1).
  destruct (H (with_writeFile_fails false e) w) as (Hr2 & Hs2 & Hi2).
  rewrite Hs1, Hs2, Hi1, Hi2, !boot_with_writeFile_fails.
  rewrite Hr1, Hr2. simpl. auto.
Qed.

End Observations.

(** * The documented behaviour of the store *)

(** C1. [set(key, value)] followed by [get(key)] does not return every
    stored value: [set("views", 0)] succeeds, and the following
    [get("views")] returns [null], not [0], whatever the environment and the
    state before. *)
Theorem set_then_get_loses_zero (e1 e2 : env) (w : world) :
  returned (set "views" (JNum 0) e1 w) = Some tt /\
  lookup "views" (own (store (after (set "views" (JNum 0) e1 w)))) =
    Some (JNum 0) /\
  returned (get "views" e2 (after (set "views" (JNum 0) e1 w))) = Some null /\
  null <> VJson (JNum 0).
Proof.
  destruct (set_returns "views" (JNum 0) e1 w) as (Hr & Hs & Hi).
  assert (Hl : lookup "views" (own (store (after (set "views" (JNum 0) e1 w))))
               = Some (JNum 0)).
  { rewrite Hs. now apply Put_lookup_same. }
  repeat split.
  - now rewrite Hr.
  - exact Hl.
  - rewrite (get_initialized _ _ _ Hi). unfold Get. now rewrite Hl.
  - discriminate.
Qed.

(** C2. [get] of a key that was never set does not always return [null]:
    on a store started without a snapshot file (in production or not,
    whether or not the data directory can be made), [get("constructor")]
    returns the function inherited from [Object.prototype]. *)
Theorem get_unset_constructor (prod mk wf : bool) :
  let e := {| production := prod; mkdir_fails := mk; data_file := None;
              writeFile_fails := wf |} in
  own (store (boot e initial)) = [] /\
  returned (get "constructor" e initial) =
    Some (VBuiltin "Object.prototype.constructor").
Proof. destruct prod, mk; split; reflexivity. Qed.

(** C3. [getByPrefix(prefix)] returns, in the order of [Object.entries], the
    pairs of the store whose key starts with [prefix], and nothing else; the
    result is empty exactly when no key matches.  On a store started
    without a snapshot, after [set("video:1", {title: "A", views: 0})] and
    [set("video:2", {title: "B", views: 5})], [getByPrefix("video:")]
    returns both pairs, and after [del("video:1")] only the second. *)
Theorem getByPrefix_exact (prefix : string) (e : env) (w : world) :
  let found :=
    map to_entry (filter (fun p => startsWith (fst p) prefix)
                         (entries (store (boot e w)))) in
  let A := JObj [("title", JStr "A"); ("views", JNum 0)] in
  let B := JObj [("title", JStr "B"); ("views", JNum 5)] in
  let both :=
    run [(CallSet "video:1" A, dev_no_snapshot);
         (CallSet "video:2" B, dev_no_snapshot)] initial in
  getByPrefix prefix e w = Returns found (boot e w) /\
  (forall k v,
     In {| key := k; value := v |} found <->
     In (k, v) (entries (store (boot e w))) /\ startsWith k prefix = true) /\
  (found = [] <->
   forall k v, In (k, v) (entries (store (boot e w))) ->
               startsWith k prefix = false) /\
  returned (getByPrefix "video:" dev_no_snapshot both) =
    Some [ {| key := "video:1"; value := A |};
           {| key := "video:2"; value := B |} ] /\
  returned (getByPrefix "video:" dev_no_snapshot
              (perform (CallDel "video:1") dev_no_snapshot both)) =
    Some [ {| key := "video:2"; value := B |} ].
Proof.
  intros found A B both. split; [apply getByPrefix_returns|].
  split; [|split; [|split; reflexivity]].
  - intros k v. unfold found. rewrite in_map_iff. split.
    + intros ([k' v'] & Heq & Hin). injection Heq as -> ->.
      now apply filter_In in Hin.
    + intros [Hin Hp]. exists (k, v). split; [reflexivity|].
      now apply filter_In.
  - unfold found. split.
    + intros Hnil k v Hin.
      destruct (startsWith k prefix) eqn:Hp; [|reflexivity].
      assert (Hf : In (k, v) (filter (fun p => startsWith (fst p) prefix)
                                (entries (store (boot e w)))))
        by now apply filter_In.
      apply (in_map to_entry) in Hf. rewrite Hnil in Hf. contradiction.
    + intros Hnone.
      induction (entries (store (boot e w))) as [|[k v] t IH]; [reflexivity|].
      simpl. rewrite (Hnone k v) by now left.
      apply IH. intros k' v' Hin. apply (Hnone k' v'). now right.
Qed.

(** C4. [mget(keys)] returns a list as long as [keys] whose i-th element is
    what [get] returns for the i-th key, called in its place or right
    after, duplicates and order as given. *)
Theorem mget_pointwise_get (keys : list string) (e : env) (w : world) :
  exists vs,
    mget keys e w = Returns vs (boot e w) /\
    List.length vs = List.length keys /\
    map Some vs = map (fun k => returned (get k e w)) keys /\
    forall e', map Some vs = map (fun k => returned (get k e' (boot e w))) keys.
Proof.
  eexists. split; [apply mget_returns|]. split; [apply length_map|].
  rewrite map_map. split.
  - apply map_ext. intros k. now rewrite get_returns.
  - intros e'. apply map_ext. intros k.
    now rewrite get_returns, boot_boot.
Qed.

(** C5. [del(key)] followed by [get(key)] does not always return [null]:
    on a store holding any properties of its own, [del("toString")]
    succeeds and the following [get("toString")] returns the function
    inherited from [Object.prototype]. *)
Theorem del_then_get_toString (e1 e2 : env) (ps : properties) :
  returned (del "toString" e1 (holding ps)) = Some tt /\
  returned (get "toString" e2 (after (del "toString" e1 (holding ps)))) =
    Some (VBuiltin "Object.prototype.toString").
Proof.
  destruct (del_returns "toString" e1 (holding ps)) as (Hr & Hs & Hi).
  split; [now rewrite Hr|].
  rewrite (get_initialized _ _ _ Hi), Hs. unfold Get, Delete. simpl own.
  now rewrite lookup_remove_same.
Qed.

(** C6. Calling [del(key)] again, any number of times, leaves the store and
    everything [get], [mget] and [getByPrefix] return as one call left
    them. *)
Theorem del_idempotent (k : string) (e : env) (es : list env) (w : world) :
  let once := del_repeatedly k [e] w in
  let more := del_repeatedly k (e :: es) w in
  store more = store once /\
  isInitialized more = isInitialized once /\
  (forall key e', returned (get key e' more) = returned (get key e' once)) /\
  (forall keys e', returned (mget keys e' more) = returned (mget keys e' once)) /\
  (forall prefix e',
     returned (getByPrefix prefix e' more) =
     returned (getByPrefix prefix e' once)).
Proof.
  intros once more.
  destruct (del_returns k e w) as (_ & Hs & Hi).
  assert (Honce : once = after (del k e w)) by reflexivity.
  assert (Hmore : more = del_repeatedly k es (after (del k e w))) by reflexivity.
  destruct (del_repeatedly_store k es _ _ Hi Hs) as [Hs' Hi'].
  rewrite <- Hmore in Hs', Hi'. rewrite <- Honce in Hs, Hi.
  assert (Heq : store more = store once) by now rewrite Hs', Hs.
  split; [exact Heq|]. split; [now rewrite Hi', Hi|].
  split; [|split].
  - intros key e'. now rewrite !get_initialized, Heq.
  - intros keys e'. now rewrite !mget_initialized, Heq.
  - intros prefix e'. now rewrite !getByPrefix_initialized, Heq.
Qed.

(** C7. A successful [set(key, value)] does not always leave [key] mapped
    to [value]: on a store started without a snapshot file,
    [set("__proto__", 1)] succeeds and creates no property; no
    [getByPrefix] lists the key, and [get("__proto__")] returns
    [Object.prototype]. *)
Theorem set_proto_creates_no_property (prod mk wf : bool) (e' : env) :
  let e := {| production := prod; mkdir_fails := mk; data_file := None;
              writeFile_fails := wf |} in
  let w := after (set "__proto__" (JNum 1) e initial) in
  returned (set "__proto__" (JNum 1) e initial) = Some tt /\
  lookup "__proto__" (own (store w)) = None /\
  returned (getByPrefix "__proto__" e' w) = Some [] /\
  returned (get "__proto__" e' w) = Some (VBuiltin "Object.prototype").
Proof.
  intros e w.
  assert (Hi : isInitialized w = true) by apply set_returns.
  assert (Hs : store w = empty_object).
  { unfold w. destruct (set_returns "__proto__" (JNum 1) e initial) as (_ & -> & _).
    unfold e. now destruct prod, mk. }
  split; [unfold e; now destruct prod, mk, wf|].
  rewrite (getByPrefix_initialized _ _ _ Hi), (get_initialized _ _ _ Hi), Hs.
  repeat split.
Qed.

(** C8. [set], [del], [mset] and [mdel] return normally whether the write of
    the snapshot fails or not, and leave the same store either way. *)
Theorem write_failure_not_surfaced
  (k : string) (v : json) (kvs : list (string * json)) (ks : list string) :
  unaffected_by_write_failure (set k v) /\
  unaffected_by_write_failure (del k) /\
  unaffected_by_write_failure (mset kvs) /\
  unaffected_by_write_failure (mdel ks).
Proof.
  repeat apply conj.
  - apply (unaffected_intro _ (fun s => Put s k v)). intros. apply set_returns.
  - apply (unaffected_intro _ (fun s => Delete s k)). intros. apply del_returns.
  - apply (unaffected_intro _ (Put_all kvs)). intros. apply mset_returns.
  - apply (unaffected_intro _ (Delete_all ks)). intros. apply mdel_returns.
Qed.

(** C9. Started against a missing or an unparsable snapshot, the store
    initializes without raising and has no property of its own, yet not
    every [get] returns [null]: [get("valueOf")] returns the function
    inherited from [Object.prototype]. *)
Theorem degraded_start_get_valueOf (corrupt mk wf : bool) :
  let e := {| production := false; mkdir_fails := mk;
              data_file := if corrupt then Some Unparsable else None;
              writeFile_fails := wf |} in
  ensure_initialized e initial = Returns tt (boot e initial) /\
  own (store (boot e initial)) = [] /\
  (forall prefix, returned (getByPrefix prefix e initial) = Some []) /\
  returned (get "valueOf" e initial) =
    Some (VBuiltin "Object.prototype.valueOf").
Proof.
  intros e. split; [apply ensure_initialized_returns|].
  assert (Hs : store (boot e initial) = empty_object)
    by (unfold e; now destruct corrupt, mk).
  split; [now rewrite Hs|]. split.
  - intros prefix. now rewrite getByPrefix_returns, Hs.
  - now rewrite get_returns, Hs.
Qed.

(** C10. When the store holds a falsy value ([false], [0], the empty string
    or [null]) under [k], [get(k)] returns [null], [mget] has [null] at
    every place of [k], and [getByPrefix] with a prefix of [k] returns the
    pair of [k] and the stored value. *)
Theorem falsy_value_hidden_from_get
  (k prefix : string) (v : json) (e : env) (w : world) :
  lookup k (own (store (boot e w))) = Some v ->
  In v [JBool false; JNum 0; JStr ""; JNull] ->
  startsWith k prefix = true ->
  returned (get k e w) = Some null /\
  (forall before after_k,
     exists vs,
       returned (mget (before ++ k :: after_k) e w) = Some vs /\
       nth_error vs (List.length before) = Some null) /\
  (exists found,
     returned (getByPrefix prefix e w) = Some found /\
     In {| key := k; value := v |} found).
Proof.
  intros Hl Hv Hp.
  assert (Hg : logical_or (Get (store (boot e w)) k) null = null).
  { unfold Get. rewrite Hl.
    destruct Hv as [<-|[<-|[<-|[<-|[]]]]]; reflexivity. }
  split; [now rewrite get_returns, Hg|]. split.
  - intros before after_k. eexists. rewrite mget_returns. split; [reflexivity|].
    rewrite map_app. simpl. rewrite Hg.
    rewrite nth_error_app2; rewrite length_map; [|lia].
    now rewrite Nat.sub_diag.
  - eexists. rewrite getByPrefix_returns. split; [reflexivity|].
    apply (in_map to_entry _ (k, v)). apply filter_In. split; [|exact Hp].
    now apply lookup_In.
Qed.

Lemma falsy_value_hidden_from_get_witness :
  returned (get "flag" dev_no_snapshot (holding [("flag", JBool false)])) =
    Some null /\
  (forall before after_k,
     exists vs,
       returned (mget (before ++ "flag" :: after_k) dev_no_snapshot
                   (holding [("flag", JBool false)])) = Some vs /\
       nth_error vs (List.length before) = Some null) /\
  (exists found,
     returned (getByPrefix "fl" dev_no_snapshot
                 (holding [("flag", JBool false)])) = Some found /\
     In {| key := "flag"; value := JBool false |} found).
Proof.
  apply (falsy_value_hidden_from_get "flag" "fl" (JBool false)).
  - reflexivity.
  - simpl. auto.
  - reflexivity.
Defined.

(** * Further properties of the store *)

(** ** The worlds the calls leave *)

Section Worlds.

Implicit Types (k key prefix : string) (v : json) (e : env) (w : world).

Lemma saveStore_initialized_world e w :
  isInitialized w = true -> saveStore e w = Returns tt (saved e w).
Proof.
  intros Hw. unfold saveStore. rewrite bind_ensure_initialized.
  rewrite (boot_idle e w Hw). unfold saved, logged. unfold_calls.
  destruct (production e); [reflexivity|].
  destruct (writeFile_fails e); reflexivity.
Qed.

Lemma saveStore_world e w : saveStore e w = Returns tt (saved e (boot e w)).
Proof.
  rewrite <- (saveStore_initialized_world e (boot e w) (boot_initialized e w)).
  unfold saveStore. now rewrite !bind_ensure_initialized, boot_boot.
Qed.

Lemma saved_store e w : store (saved e w) = store w.
Proof. unfold saved. now destruct (negb (production e) && writeFile_fails e). Qed.

Lemma saved_isInitialized e w : isInitialized (saved e w) = isInitialized w.
Proof. unfold saved. now destruct (negb (production e) && writeFile_fails e). Qed.

Lemma set_world key v e w :
  set key v e w =
  Returns tt (saved e (assigned (Put (store (boot e w)) key v) (boot e w))).
Proof.
  unfold set. rewrite bind_ensure_initialized.
  unfold bind, read, assign_store.
  apply (saveStore_initialized_world e (assigned _ (boot e w))).
  apply boot_initialized.
Qed.

Lemma del_world key e w :
  del key e w =
  Returns tt (saved e (assigned (Delete (store (boot e w)) key) (boot e w))).
Proof.
  unfold del. rewrite bind_ensure_initialized.
  unfold bind, read, assign_store.
  apply (saveStore_initialized_world e (assigned _ (boot e w))).
  apply boot_initialized.
Qed.

Lemma mset_world (kvs : list (string * json)) e w :
  mset kvs e w =
  Returns tt (saved e (assigned (Put_all kvs (store (boot e w))) (boot e w))).
Proof.
  unfold mset. rewrite bind_ensure_initialized.
  unfold bind. rewrite for_of_Put.
  apply (saveStore_initialized_world e (assigned _ (boot e w))).
  apply boot_initialized.
Qed.

Lemma mdel_world (keys : list string) e w :
  mdel keys e w =
  Returns tt (saved e (assigned (Delete_all keys (store (boot e w))) (boot e w))).
Proof.
  unfold mdel. rewrite bind_ensure_initialized.
  unfold bind. rewrite for_of_Delete.
  apply (saveStore_initialized_world e (assigned _ (boot e w))).
  apply boot_initialized.
Qed.

(** The store and the flag a call leaves, from the world its body found. *)
Lemma perform_store c e w :
  isInitialized (perform c e w) = true /\
  store (perform c e w) =
    match c with
    | CallSet k v => Put (store (boot e w)) k v
    | CallDel k => Delete (store (boot e w)) k
    | CallMset kvs => Put_all kvs (store (boot e w))
    | CallMdel ks => Delete_all ks (store (boot e w))
    | _ => store (boot e w)
    end.
Proof.
  destruct c; simpl.
  - rewrite get_returns. simpl. split; [apply boot_initialized|reflexivity].
  - rewrite mget_returns. simpl. split; [apply boot_initialized|reflexivity].
  - rewrite getByPrefix_returns. simpl.
    split; [apply boot_initialized|reflexivity].
  - rewrite set_world. simpl. rewrite saved_store, saved_isInitialized.
    split; [apply boot_initialized|reflexivity].
  - rewrite del_world. simpl. rewrite saved_store, saved_isInitialized.
    split; [apply boot_initialized|reflexivity].
  - rewrite mset_world. simpl. rewrite saved_store, saved_isInitialized.
    split; [apply boot_initialized|reflexivity].
  - rewrite mdel_world. simpl. rewrite saved_store, saved_isInitialized.
    split; [apply boot_initialized|reflexivity].
  - rewrite saveStore_world. simpl. rewrite saved_store, saved_isInitialized.
    split; [apply boot_initialized|reflexivity].
Qed.

End Worlds.

(** ** Initialization *)

(** X1. [initializeStore] returns normally in every environment and leaves
    [isInitialized] set; called again, in whatever environment, it changes
    nothing: the snapshot is read at most once. *)
Theorem initializeStore_once (e e' : env) (w : world) :
  initializeStore e w = Returns tt (after (initializeStore e w)) /\
  isInitialized (after (initializeStore e w)) = true /\
  initializeStore e' (after (initializeStore e w)) =
    Returns tt (after (initializeStore e w)).
Proof.
  split; [apply initializeStore_returns|].
  split; [apply initializeStore_initialized|].
  pose proof (initializeStore_initialized e w) as Hi.
  unfold initializeStore at 1. unfold bind at 1. unfold read at 1.
  now rewrite Hi.
Qed.

(** X2. In production the first call starts from an empty store and says
    so on the console, whatever the file system holds. *)
Theorem production_start_ignores_snapshot (e : env) (w : world) :
  production e = true ->
  isInitialized w = false ->
  boot e w =
  logged "KV store initialized in-memory for production"
    {| store := empty_object; isInitialized := true; console := console w |}.
Proof.
  destruct e as [prod mk file wf], w as [s i c]. simpl.
  intros -> ->. reflexivity.
Qed.

Lemma production_start_ignores_snapshot_witness :
  boot {| production := true; mkdir_fails := false;
          data_file := Some (ObjectText [("a", JNum 1)]);
          writeFile_fails := false |} initial =
  logged "KV store initialized in-memory for production"
    {| store := empty_object; isInitialized := true;
       console := console initial |}.
Proof.
  apply (production_start_ignores_snapshot
           {| production := true; mkdir_fails := false;
              data_file := Some (ObjectText [("a", JNum 1)]);
              writeFile_fails := false |} initial); reflexivity.
Defined.

(** X3. Outside production, when the data directory cannot be made, the
    snapshot is not read: the first call starts from an empty store and
    reports the error on the console. *)
Theorem mkdir_failure_starts_empty (e : env) (w : world) :
  production e = false ->
  mkdir_fails e = true ->
  isInitialized w = false ->
  boot e w =
  {| store := empty_object; isInitialized := true;
     console := (console w ++ ["Error initializing KV store:"])%list |}.
Proof.
  destruct e as [prod mk file wf], w as [s i c]. simpl.
  intros -> -> ->. reflexivity.
Qed.

Lemma mkdir_failure_starts_empty_witness :
  boot {| production := false; mkdir_fails := true;
          data_file := Some (ObjectText [("a", JNum 1)]);
          writeFile_fails := false |} initial =
  {| store := empty_object; isInitialized := true;
     console := (console initial ++ ["Error initializing KV store:"])%list |}.
Proof.
  apply (mkdir_failure_starts_empty
           {| production := false; mkdir_fails := true;
              data_file := Some (ObjectText [("a", JNum 1)]);
              writeFile_fails := false |} initial); reflexivity.
Defined.

(** X4. Outside production, a snapshot that cannot be read or parsed is
    not an error of its own: the first call starts from an empty store and
    logs the same line in both cases. *)
Theorem unreadable_snapshot_starts_empty (e : env) (w : world) :
  production e = false ->
  mkdir_fails e = false ->
  data_file e = None \/ data_file e = Some Unparsable ->
  isInitialized w = false ->
  boot e w =
  {| store := empty_object; isInitialized := true;
     console := (console w ++ ["KV store initialized with empty data"])%list |}.
Proof.
  destruct e as [prod mk file wf], w as [s i c]. simpl.
  intros -> -> [-> | ->] ->; reflexivity.
Qed.

Lemma unreadable_snapshot_starts_empty_witness :
  boot dev_corrupt_snapshot initial =
  {| store := empty_object; isInitialized := true;
     console := (console initial
                 ++ ["KV store initialized with empty data"])%list |}.
Proof.
  apply (unreadable_snapshot_starts_empty dev_corrupt_snapshot initial);
    try reflexivity.
  right. reflexivity.
Defined.

Section Parsing.

Implicit Types (k key : string) (v : json) (ps props : properties).

Lemma lookup_app key ps ps' :
  lookup key (ps ++ ps')%list =
  match lookup key ps with
  | Some v => Some v
  | None => lookup key ps'
  end.
Proof.
  induction ps as [|[k x] t IH]; simpl; [reflexivity|].
  now destruct (k =? key).
Qed.

Lemma lookup_define_same key v ps : lookup key (define key v ps) = Some v.
Proof.
  unfold define. destruct (has key ps) eqn:Hhas.
  - now apply lookup_update_same.
  - apply lookup_create_same. now apply has_false.
Qed.

Lemma lookup_define_other k key v ps :
  k <> key -> lookup k (define key v ps) = lookup k ps.
Proof.
  intros Hne. unfold define. destruct (has key ps).
  - now apply lookup_update_other.
  - now apply lookup_create_other.
Qed.

(** The members [JSON.parse] defines one after the other: a later member
    of the same name replaces the earlier one. *)
Lemma lookup_parsed key props acc :
  lookup key (fold_left (fun a p => define (fst p) (snd p) a) props acc) =
  match last_binding key props with
  | Some v => Some v
  | None => lookup key acc
  end.
Proof.
  unfold last_binding. revert acc.
  induction props as [|[k v] t IH]; intros acc; simpl; [reflexivity|].
  rewrite IH, lookup_app. destruct (lookup key (rev t)); [reflexivity|].
  simpl. destruct (String.eqb_spec k key) as [->|Hne].
  - apply lookup_define_same.
  - apply lookup_define_other. congruence.
Qed.

End Parsing.

(** X5. Outside production, a snapshot that parses to an object becomes
    the store on the first call: an ordinary object whose property of each
    name is the last member of that name in the text; the load is logged. *)
Theorem snapshot_load_last_member_wins
  (e : env) (w : world) (props : properties) :
  production e = false ->
  mkdir_fails e = false ->
  data_file e = Some (ObjectText props) ->
  isInitialized w = false ->
  proto (store (boot e w)) = ObjectPrototype /\
  (forall k, lookup k (own (store (boot e w))) = last_binding k props) /\
  isInitialized (boot e w) = true /\
  console (boot e w) = (console w ++ ["KV store loaded from file"])%list.
Proof.
  destruct e as [prod mk file wf], w as [s i c]. simpl.
  intros -> -> -> ->. repeat split.
  intros k. cbn. rewrite lookup_parsed. simpl.
  now destruct (last_binding k props).
Qed.

Lemma snapshot_load_last_member_wins_witness :
  let e := {| production := false; mkdir_fails := false;
              data_file := Some (ObjectText [("a", JNum 1); ("b", JNum 2);
                                             ("a", JNum 3)]);
              writeFile_fails := false |} in
  proto (store (boot e initial)) = ObjectPrototype /\
  (forall k, lookup k (own (store (boot e initial))) =
             last_binding k [("a", JNum 1); ("b", JNum 2); ("a", JNum 3)]) /\
  isInitialized (boot e initial) = true /\
  console (boot e initial) =
    (console initial ++ ["KV store loaded from file"])%list.
Proof.
  apply (snapshot_load_last_member_wins
           {| production := false; mkdir_fails := false;
              data_file := Some (ObjectText [("a", JNum 1); ("b", JNum 2);
                                             ("a", JNum 3)]);
              writeFile_fails := false |} initial
           [("a", JNum 1); ("b", JNum 2); ("a", JNum 3)]); reflexivity.
Defined.

(** ** Saving *)

(** X6. [saveStore] returns normally and never touches the store.  In
    production, and when the write goes through, it leaves the world as
    its first line found it; a failed write outside production adds one
    line to the console and nothing else. *)
Theorem saveStore_only_logs (e : env) (w : world) :
  saveStore e w = Returns tt (after (saveStore e w)) /\
  store (after (saveStore e w)) = store (boot e w) /\
  after (saveStore e w) =
    if negb (production e) && writeFile_fails e
    then logged "Error saving KV store:" (boot e w)
    else boot e w.
Proof.
  rewrite saveStore_world. simpl. rewrite saved_store. auto.
Qed.

(** ** Reading *)

(** X7. [get], [mget] and [getByPrefix] write nothing: they leave the
    world as their first line found it, and an initialized world exactly as
    it was, console included. *)
Theorem reads_change_nothing
  (k prefix : string) (ks : list string) (e : env) (w : world) :
  after (get k e w) = boot e w /\
  after (mget ks e w) = boot e w /\
  after (getByPrefix prefix e w) = boot e w /\
  (isInitialized w = true ->
   perform (CallGet k) e w = w /\
   perform (CallMget ks) e w = w /\
   perform (CallGetByPrefix prefix) e w = w).
Proof.
  simpl. rewrite get_returns, mget_returns, getByPrefix_returns. simpl.
  repeat split; try reflexivity; now apply boot_idle.
Qed.


(** X9. [set(key, value)] followed by [get(key)] returns the value when it
    is truthy and the key is not ["__proto__"], whatever the store held. *)
Theorem set_then_get_truthy
  (key : string) (v : json) (e1 e2 : env) (w : world) :
  key <> "__proto__" ->
  ToBoolean (VJson v) = true ->
  returned (get key e2 (after (set key v e1 w))) = Some (VJson v).
Proof.
  intros Hk Hv. destruct (set_returns key v e1 w) as (_ & Hs & Hi).
  rewrite (get_initialized _ _ _ Hi), Hs. unfold Get.
  rewrite (Put_lookup_same _ _ _ Hk). unfold logical_or. now rewrite Hv.
Qed.

Lemma set_then_get_truthy_witness :
  returned (get "video:1" dev_no_snapshot
              (after (set "video:1" (JObj [("title", JStr "A")])
                        dev_no_snapshot initial))) =
  Some (VJson (JObj [("title", JStr "A")])).
Proof.
  apply (set_then_get_truthy "video:1" (JObj [("title", JStr "A")])
           dev_no_snapshot dev_no_snapshot initial).
  - discriminate.
  - reflexivity.
Defined.

(** ** Calls on other keys *)

Section Frame.

Implicit Types (k key : string) (v : json) (e : env) (w : world).

Lemma perform_other_key c e w k :
  isInitialized w = true ->
  targets c k = false ->
  lookup k (own (store (perform c e w))) = lookup k (own (store w)).
Proof.
  intros Hw Ht. destruct (perform_store c e w) as [_ ->].
  rewrite (boot_idle e w Hw). destruct c; simpl in Ht; try reflexivity.
  - apply Put_lookup_other. intros ->. now rewrite String.eqb_refl in Ht.
  - simpl. apply lookup_remove_other. intros ->.
    now rewrite String.eqb_refl in Ht.
  - now apply Put_all_lookup_other.
  - now apply Delete_all_lookup_other.
Qed.

Lemma run_other_keys cs k :
  forall w,
    isInitialized w = true ->
    untargeted k cs = true ->
    lookup k (own (store (run cs w))) = lookup k (own (store w)) /\
    isInitialized (run cs w) = true.
Proof.
  unfold untargeted.
  induction cs as [|[c e] t IH]; intros w Hw Hu; simpl; [auto|].
  simpl in Hu. apply andb_true_iff in Hu as [Hc Ht].
  apply negb_true_iff in Hc.
  destruct (IH (perform c e w)) as [Hl Hi];
    [apply perform_store | exact Ht |].
  split; [|exact Hi]. rewrite Hl. now apply perform_other_key.
Qed.

End Frame.

(** X10. A property of the store stays as it is through any sequence of
    calls none of which sets or deletes its key, the timer's saves
    included; [get] of the key answers from it afterwards. *)
Theorem own_property_preserved_by_other_calls
  (k : string) (v : json) (cs : list (call * env)) (e : env) (w : world) :
  isInitialized w = true ->
  lookup k (own (store w)) = Some v ->
  untargeted k cs = true ->
  lookup k (own (store (run cs w))) = Some v /\
  returned (get k e (run cs w)) = Some (logical_or (VJson v) null).
Proof.
  intros Hw Hl Hu. destruct (run_other_keys cs k w Hw Hu) as [Hl' Hi].
  rewrite Hl in Hl'. split; [exact Hl'|].
  rewrite (get_initialized _ _ _ Hi). unfold Get. now rewrite Hl'.
Qed.

Lemma own_property_preserved_by_other_calls_witness :
  let cs := [ (CallSet "b" (JNum 2), dev_no_snapshot);
              (CallSet "__proto__" JNull, dev_no_snapshot);
              (CallMdel ["b"; "c"], dev_corrupt_snapshot);
              (TimerSave, dev_no_snapshot);
              (CallGetByPrefix "a", dev_no_snapshot) ] in
  lookup "a" (own (store (run cs (holding [("a", JNum 1)])))) = Some (JNum 1) /\
  returned (get "a" dev_no_snapshot (run cs (holding [("a", JNum 1)]))) =
    Some (logical_or (VJson (JNum 1)) null).
Proof.
  apply (own_property_preserved_by_other_calls "a" (JNum 1)
           [ (CallSet "b" (JNum 2), dev_no_snapshot);
             (CallSet "__proto__" JNull, dev_no_snapshot);
             (CallMdel ["b"; "c"], dev_corrupt_snapshot);
             (TimerSave, dev_no_snapshot);
             (CallGetByPrefix "a", dev_no_snapshot) ]
           dev_no_snapshot (holding [("a", JNum 1)])); reflexivity.
Defined.

(** ** Deleting *)

(** X11. On a store whose prototype is [Object.prototype], [del(k)]
    followed by [get(k)] returns [null] for every key that is not the name
    of a property of [Object.prototype]. *)
Theorem del_then_get_plain_key (k : string) (e1 e2 : env) (w : world) :
  proto (store (boot e1 w)) = ObjectPrototype ->
  k <> "__proto__" ->
  mem k Object_prototype_names = false ->
  returned (get k e2 (after (del k e1 w))) = Some null.
Proof.
  intros Hp Hk Hm. destruct (del_returns k e1 w) as (_ & Hs & Hi).
  rewrite (get_initialized _ _ _ Hi), Hs. unfold Get, Delete. simpl.
  rewrite lookup_remove_same, Hp. simpl. unfold Object_prototype_get.
  destruct (String.eqb_spec k "__proto__"); [contradiction|].
  now rewrite Hm.
Qed.

Lemma del_then_get_plain_key_witness :
  returned (get "video:1" dev_no_snapshot
              (after (del "video:1" dev_no_snapshot
                        (holding [("video:1", JNum 7)])))) = Some null.
Proof.
  apply (del_then_get_plain_key "video:1" dev_no_snapshot dev_no_snapshot
           (holding [("video:1", JNum 7)])).
  - reflexivity.
  - discriminate.
  - reflexivity.
Defined.

(** X12. [del] of a key the store has no property for returns normally and
    leaves the store as it was. *)
Theorem del_absent_key_changes_nothing (k : string) (e : env) (w : world) :
  lookup k (own (store (boot e w))) = None ->
  del k e w = Returns tt (saved e (boot e w)) /\
  store (after (del k e w)) = store (boot e w).
Proof.
  intros Hl.
  assert (Hd : Delete (store (boot e w)) k = store (boot e w)).
  { unfold Delete. rewrite (remove_absent _ _ Hl). now destruct (store (boot e w)). }
  rewrite del_world, Hd.
  assert (Ha : assigned (store (boot e w)) (boot e w) = boot e w)
    by now destruct (boot e w).
  rewrite Ha. simpl. now rewrite saved_store.
Qed.

Lemma del_absent_key_changes_nothing_witness :
  del "b" dev_no_snapshot (holding [("a", JNum 1)]) =
    Returns tt (saved dev_no_snapshot
                  (boot dev_no_snapshot (holding [("a", JNum 1)]))) /\
  store (after (del "b" dev_no_snapshot (holding [("a", JNum 1)]))) =
    store (boot dev_no_snapshot (holding [("a", JNum 1)])).
Proof.
  apply (del_absent_key_changes_nothing "b" dev_no_snapshot
           (holding [("a", JNum 1)])).
  reflexivity.
Defined.

(** ** Several keys at once *)

Section Batches.

Implicit Types (k key : string) (v : json) (e : env) (w : world) (o : object).

Lemma run_set_each (kvs : list (string * json)) e :
  forall w,
    isInitialized w = true ->
    store (run (set_each kvs e) w) = Put_all kvs (store w).
Proof.
  unfold set_each, Put_all.
  induction kvs as [|[k v] t IH]; intros w Hw; simpl; [reflexivity|].
  destruct (perform_store (CallSet k v) e w) as [Hi Hs]. simpl in Hi, Hs.
  rewrite (IH _ Hi), Hs. now rewrite (boot_idle e w Hw).
Qed.

Lemma run_del_each (ks : list string) e :
  forall w,
    isInitialized w = true ->
    store (run (del_each ks e) w) = Delete_all ks (store w).
Proof.
  unfold del_each, Delete_all.
  induction ks as [|k t IH]; intros w Hw; simpl; [reflexivity|].
  destruct (perform_store (CallDel k) e w) as [Hi Hs]. simpl in Hi, Hs.
  rewrite (IH _ Hi), Hs. now rewrite (boot_idle e w Hw).
Qed.

Lemma Put_all_lookup k (kvs : list (string * json)) o :
  k <> "__proto__" ->
  lookup k (own (Put_all kvs o)) =
  match last_binding k kvs with
  | Some v => Some v
  | None => lookup k (own o)
  end.
Proof.
  intros Hk. unfold Put_all, last_binding. revert o.
  induction kvs as [|[k' v] t IH]; intros o; simpl; [reflexivity|].
  rewrite IH, lookup_app. destruct (lookup k (rev t)); [reflexivity|].
  simpl. destruct (String.eqb_spec k' k) as [->|Hne].
  - now apply Put_lookup_same.
  - apply Put_lookup_other. congruence.
Qed.

Lemma Delete_all_lookup k (ks : list string) o :
  lookup k (own (Delete_all ks o)) =
  if existsb (String.eqb k) ks then None else lookup k (own o).
Proof.
  unfold Delete_all. revert o.
  induction ks as [|k' t IH]; intros o; simpl; [reflexivity|].
  rewrite IH. destruct (existsb (String.eqb k) t).
  - now rewrite orb_true_r.
  - rewrite orb_false_r. destruct (String.eqb_spec k k') as [->|Hne].
    + apply lookup_remove_same.
    + now apply lookup_remove_other.
Qed.

End Batches.

(** X13. [mset] leaves the store that calling [set] for each pair in turn
    would leave, and [mdel] the one [del] for each key would; but they
    attempt the write once, after the loop, so that at most one failure
    is logged. *)
Theorem batch_is_sequence_with_one_save
  (kvs : list (string * json)) (ks : list string) (e : env) (w : world) :
  mset kvs e w =
    Returns tt (saved e (assigned (store (run (set_each kvs e) (boot e w)))
                                  (boot e w))) /\
  mdel ks e w =
    Returns tt (saved e (assigned (store (run (del_each ks e) (boot e w)))
                                  (boot e w))).
Proof.
  rewrite run_set_each, run_del_each by apply boot_initialized.
  split; [apply mset_world | apply mdel_world].
Qed.

(** X14. After [mset], a key other than ["__proto__"] holds the value of
    its last pair in the list, and what it held before when the list does
    not name it. *)
Theorem mset_last_pair_wins
  (k : string) (kvs : list (string * json)) (e : env) (w : world) :
  k <> "__proto__" ->
  lookup k (own (store (after (mset kvs e w)))) =
  match last_binding k kvs with
  | Some v => Some v
  | None => lookup k (own (store (boot e w)))
  end.
Proof.
  intros Hk. destruct (mset_returns kvs e w) as (_ & -> & _).
  now apply Put_all_lookup.
Qed.

Lemma mset_last_pair_wins_witness :
  lookup "a" (own (store (after (mset [("a", JNum 1); ("b", JNum 2);
                                       ("a", JNum 3)]
                                   dev_no_snapshot initial)))) =
  match last_binding "a" [("a", JNum 1); ("b", JNum 2); ("a", JNum 3)] with
  | Some v => Some v
  | None => lookup "a" (own (store (boot dev_no_snapshot initial)))
  end.
Proof.
  apply (mset_last_pair_wins "a" [("a", JNum 1); ("b", JNum 2); ("a", JNum 3)]
           dev_no_snapshot initial).
  discriminate.
Defined.

(** X15. After [mdel], the store has no property for any listed key, and
    every other property as before. *)
Theorem mdel_removes_listed_keys
  (k : string) (ks : list string) (e : env) (w : world) :
  lookup k (own (store (after (mdel ks e w)))) =
  if existsb (String.eqb k) ks then None
  else lookup k (own (store (boot e w))).
Proof.
  destruct (mdel_returns ks e w) as (_ & -> & _). apply Delete_all_lookup.
Qed.

(** ** Scanning *)

Section Scanning.

Implicit Types (k key prefix rest : string).

Lemma startsWith_append key prefix :
  startsWith key prefix = true <-> exists rest, key = prefix ++ rest.
Proof.
  unfold startsWith. revert key.
  induction prefix as [|c p IH]; intros key; simpl.
  - split; [intros _; now exists key | now destruct key].
  - destruct key as [|c' key]; [split; [discriminate | intros [r [=]]]|].
    simpl. destruct (Ascii.ascii_dec c c') as [->|Hne].
    + rewrite IH. split; intros [r Hr]; exists r.
      * now rewrite Hr.
      * now injection Hr.
    + split; [discriminate|]. intros [r [= Hc _]]. congruence.
Qed.

Lemma startsWith_empty key : startsWith key "" = true.
Proof. apply startsWith_append. now exists key. Qed.

Lemma filter_all {A : Type} (f : A -> bool) (l : list A) :
  (forall x, f x = true) -> filter f l = l.
Proof.
  intros H. induction l as [|a t IH]; simpl; [reflexivity|].
  now rewrite H, IH.
Qed.

End Scanning.

(** X16. [getByPrefix("")] returns the whole store, one element for each
    property, in the order of [Object.entries]. *)
Theorem getByPrefix_empty_prefix (e : env) (w : world) :
  getByPrefix "" e w =
  Returns (map to_entry (entries (store (boot e w)))) (boot e w).
Proof.
  rewrite getByPrefix_returns. rewrite filter_all; [reflexivity|].
  intros p. apply startsWith_empty.
Qed.

(** X17. Every key [getByPrefix(prefix)] returns is [prefix] followed by
    some string, and every element is a property of the store. *)
Theorem getByPrefix_keys_extend_prefix (prefix : string) (e : env) (w : world) :
  exists found,
    getByPrefix prefix e w = Returns found (boot e w) /\
    forall x, In x found ->
      (exists rest, key x = prefix ++ rest) /\
      lookup (key x) (own (store (boot e w))) <> None.
Proof.
  eexists. split; [apply getByPrefix_returns|].
  intros x Hx. apply in_map_iff in Hx as ([k v] & <- & Hin).
  apply filter_In in Hin as [Hin Hp]. simpl in *. split.
  - now apply startsWith_append.
  - clear Hp. unfold entries in Hin.
    induction (own (store (boot e w))) as [|[k' v'] t IH]; [contradiction|].
    simpl. destruct (String.eqb_spec k' k); [discriminate|].
    destruct Hin as [[= -> ->]|Hin]; [contradiction|]. now apply IH.
Qed.

(** ** The keys of the store *)

Section Keys.

Implicit Types (k key : string) (v : json) (ps : properties) (o : object).

Lemma keys_update key v ps : map fst (update key v ps) = map fst ps.
Proof.
  induction ps as [|[k x] t IH]; simpl; [reflexivity|].
  destruct (k =? key); simpl; now rewrite IH.
Qed.

Lemma lookup_None_keys key ps : lookup key ps = None <-> ~ In key (map fst ps).
Proof.
  induction ps as [|[k x] t IH]; simpl; [tauto|].
  destruct (String.eqb_spec k key) as [->|Hne].
  - split; [discriminate | intros H; exfalso; auto].
  - rewrite IH. tauto.
Qed.

Lemma keys_insert_index i key v ps :
  Add key (map fst ps) (map fst (insert_index i key v ps)).
Proof.
  induction ps as [|[k x] t IH]; simpl; [constructor|].
  destruct (array_index k) as [j|]; [|constructor].
  destruct (j <? i)%N; simpl; now constructor.
Qed.

Lemma keys_create key v ps :
  Add key (map fst ps) (map fst (create key v ps)).
Proof.
  unfold create. destruct (array_index key); [apply keys_insert_index|].
  rewrite map_app. simpl.
  induction (map fst ps) as [|a l IH]; simpl; now constructor.
Qed.

Lemma keys_remove key ps :
  map fst (remove key ps) = filter (fun k => negb (k =? key)) (map fst ps).
Proof.
  induction ps as [|[k x] t IH]; simpl; [reflexivity|].
  destruct (k =? key); simpl; now rewrite IH.
Qed.

Lemma distinct_create key v ps :
  lookup key ps = None -> distinct_keys ps -> distinct_keys (create key v ps).
Proof.
  unfold distinct_keys. intros Hl Hd.
  apply (NoDup_Add (keys_create key v ps)). split; [exact Hd|].
  now apply lookup_None_keys.
Qed.

Lemma distinct_define key v ps :
  distinct_keys ps -> distinct_keys (define key v ps).
Proof.
  intros Hd. unfold define. destruct (has key ps) eqn:Hhas.
  - unfold distinct_keys. now rewrite keys_update.
  - apply distinct_create; [now apply has_false | exact Hd].
Qed.

Lemma distinct_parsed props acc :
  distinct_keys acc ->
  distinct_keys (fold_left (fun a p => define (fst p) (snd p) a) props acc).
Proof.
  revert acc. induction props as [|[k v] t IH]; intros acc Hd; simpl; [exact Hd|].
  apply IH. now apply distinct_define.
Qed.

Lemma distinct_Put o key v :
  distinct_keys (own o) -> distinct_keys (own (Put o key v)).
Proof.
  intros Hd. unfold Put. destruct (has key (own o)) eqn:Hhas; simpl.
  - unfold distinct_keys. now rewrite keys_update.
  - destruct ((key =? "__proto__") && reaches_proto_setter (proto o)).
    + unfold set_prototype. now destruct v.
    + simpl. apply distinct_create; [now apply has_false | exact Hd].
Qed.

Lemma distinct_Delete o key :
  distinct_keys (own o) -> distinct_keys (own (Delete o key)).
Proof.
  unfold distinct_keys, Delete. simpl. intros Hd.
  rewrite keys_remove. now apply NoDup_filter.
Qed.

Lemma distinct_Put_all (kvs : list (string * json)) o :
  distinct_keys (own o) -> distinct_keys (own (Put_all kvs o)).
Proof.
  unfold Put_all. revert o.
  induction kvs as [|[k v] t IH]; intros o Hd; simpl; [exact Hd|].
  apply IH. now apply distinct_Put.
Qed.

Lemma distinct_Delete_all (ks : list string) o :
  distinct_keys (own o) -> distinct_keys (own (Delete_all ks o)).
Proof.
  unfold Delete_all. revert o.
  induction ks as [|k t IH]; intros o Hd; simpl; [exact Hd|].
  apply IH. now apply distinct_Delete.
Qed.

Lemma distinct_boot (e : env) (w : world) :
  distinct_keys (own (store w)) -> distinct_keys (own (store (boot e w))).
Proof.
  intros Hd. destruct e as [prod mk file wf], w as [s [|] c]; [exact Hd|].
  destruct prod; [constructor|]. destruct mk; [constructor|].
  destruct file as [[|props]|]; try constructor.
  cbn. apply distinct_parsed. constructor.
Qed.

Lemma distinct_perform (c : call) (e : env) (w : world) :
  distinct_keys (own (store w)) -> distinct_keys (own (store (perform c e w))).
Proof.
  intros Hd. apply (distinct_boot e) in Hd.
  destruct (perform_store c e w) as [_ ->].
  destruct c; auto using distinct_Put, distinct_Delete, distinct_Put_all,
    distinct_Delete_all.
Qed.

Lemma distinct_run (cs : list (call * env)) :
  forall w, distinct_keys (own (store w)) ->
            distinct_keys (own (store (run cs w))).
Proof.
  induction cs as [|[c e] t IH]; intros w Hd; simpl; [exact Hd|].
  apply IH. now apply distinct_perform.
Qed.

Lemma lookup_In_distinct key v ps :
  distinct_keys ps -> In (key, v) ps -> lookup key ps = Some v.
Proof.
  unfold distinct_keys.
  induction ps as [|[k x] t IH]; simpl; [contradiction|].
  intros Hd [[= -> ->]|Hin].
  - now rewrite String.eqb_refl.
  - inversion Hd as [|? ? Hnot Hd']; subst.
    destruct (String.eqb_spec k key) as [->|_]; [|now apply IH].
    exfalso. apply Hnot. now apply (in_map fst _ (key, v)).
Qed.

Lemma last_binding_distinct key ps :
  distinct_keys ps -> last_binding key ps = lookup key ps.
Proof.
  unfold distinct_keys, last_binding.
  induction ps as [|[k x] t IH]; simpl; [reflexivity|].
  intros Hd. inversion Hd as [|? ? Hnot Hd']; subst.
  rewrite lookup_app, (IH Hd'). simpl.
  destruct (String.eqb_spec k key) as [->|_].
  - apply lookup_None_keys in Hnot. now rewrite Hnot.
  - now destruct (lookup key t).
Qed.

End Keys.

(** X18. Setting a key the store already has a property for replaces the
    value in place: the keys keep their order in [Object.entries]. *)
Theorem overwrite_keeps_place
  (key : string) (v : json) (e : env) (w : world) :
  has key (own (store (boot e w))) = true ->
  map fst (entries (store (after (set key v e w)))) =
    map fst (entries (store (boot e w))) /\
  lookup key (own (store (after (set key v e w)))) = Some v.
Proof.
  intros Hhas. destruct (set_returns key v e w) as (_ & -> & _).
  unfold entries, Put. rewrite Hhas. simpl.
  split; [apply keys_update | now apply lookup_update_same].
Qed.

Lemma overwrite_keeps_place_witness :
  map fst (entries (store (after (set "a" (JNum 3) dev_no_snapshot
                                    (holding [("a", JNum 1); ("b", JNum 2)]))))) =
    map fst (entries (store (boot dev_no_snapshot
                               (holding [("a", JNum 1); ("b", JNum 2)])))) /\
  lookup "a" (own (store (after (set "a" (JNum 3) dev_no_snapshot
                                   (holding [("a", JNum 1); ("b", JNum 2)]))))) =
    Some (JNum 3).
Proof.
  apply (overwrite_keeps_place "a" (JNum 3) dev_no_snapshot
           (holding [("a", JNum 1); ("b", JNum 2)])).
  reflexivity.
Defined.

(** X19. Setting a key the store has no property for, when the key is
    neither an array index nor ["__proto__"], adds the property after all
    the others. *)
Theorem new_plain_key_goes_last
  (key : string) (v : json) (e : env) (w : world) :
  array_index key = None ->
  key <> "__proto__" ->
  has key (own (store (boot e w))) = false ->
  entries (store (after (set key v e w))) =
    (entries (store (boot e w)) ++ [(key, v)])%list.
Proof.
  intros Hi Hk Hhas. destruct (set_returns key v e w) as (_ & -> & _).
  unfold entries, Put. rewrite Hhas.
  destruct (String.eqb_spec key "__proto__"); [contradiction|]. simpl.
  unfold create. now rewrite Hi.
Qed.

Lemma new_plain_key_goes_last_witness :
  entries (store (after (set "video:2" (JNum 2) dev_no_snapshot
                           (holding [("video:1", JNum 1)])))) =
    (entries (store (boot dev_no_snapshot (holding [("video:1", JNum 1)])))
     ++ [("video:2", JNum 2)])%list.
Proof.
  apply (new_plain_key_goes_last "video:2" (JNum 2) dev_no_snapshot
           (holding [("video:1", JNum 1)])).
  - reflexivity.
  - discriminate.
  - reflexivity.
Defined.

(** X20. Whatever calls have run since the module was loaded, in whatever
    environments, no key occurs twice in the store. *)
Theorem keys_stay_distinct (cs : list (call * env)) :
  distinct_keys (entries (store (run cs initial))).
Proof. apply distinct_run. constructor. Qed.

(** X21. After any calls since the module was loaded, [getByPrefix(prefix)]
    returns the pair of [k] and [v] exactly when the store maps [k] to [v]
    and [k] starts with [prefix]. *)
Theorem getByPrefix_agrees_with_lookup
  (cs : list (call * env)) (e : env) (prefix k : string) (v : json) :
  exists found,
    getByPrefix prefix e (run cs initial) =
      Returns found (boot e (run cs initial)) /\
    (In {| key := k; value := v |} found <->
     lookup k (own (store (boot e (run cs initial)))) = Some v /\
     startsWith k prefix = true).
Proof.
  eexists. split; [apply getByPrefix_returns|].
  assert (Hd : distinct_keys (own (store (boot e (run cs initial)))))
    by (apply distinct_boot, distinct_run; constructor).
  rewrite in_map_iff. split.
  - intros ([k' v'] & [= -> ->] & Hin). apply filter_In in Hin as [Hin Hp].
    split; [|exact Hp]. now apply lookup_In_distinct.
  - intros [Hl Hp]. exists (k, v). split; [reflexivity|].
    apply filter_In. split; [|exact Hp]. now apply lookup_In.
Qed.

(** ** Snapshots *)

Section Snapshots.

Implicit Types (k key : string) (v : json) (e : env) (w : world) (o : object).

(** What the first call makes of a snapshot holding the serialization of
    an object. *)
Lemma boot_snapshot_of o :
  boot (snapshot_of o) initial =
  {| store := {| own := fold_left (fun a p => define (fst p) (snd p) a)
                          (own o) [];
                 proto := ObjectPrototype |};
     isInitialized := true;
     console := ["KV store loaded from file"] |}.
Proof. reflexivity. Qed.

Lemma lookup_reloaded k o :
  distinct_keys (own o) ->
  lookup k (own (store (boot (snapshot_of o) initial))) = lookup k (own o).
Proof.
  intros Hd. rewrite boot_snapshot_of. simpl.
  rewrite lookup_parsed, (last_binding_distinct _ _ Hd).
  now destruct (lookup k (own o)).
Qed.

Lemma saved_with_files mk file e w : saved (with_files mk file e) w = saved e w.
Proof. reflexivity. Qed.

End Snapshots.

(** X22. A store started from a snapshot that holds the serialization of
    the store some calls have left has the same value under every key, and
    [Object.prototype] as its prototype. *)
Theorem reload_keeps_properties (cs : list (call * env)) (k : string) :
  let o := store (run cs initial) in
  let reloaded := store (boot (snapshot_of o) initial) in
  lookup k (own reloaded) = lookup k (own o) /\
  proto reloaded = ObjectPrototype.
Proof.
  intros o reloaded. split; [|reflexivity].
  apply lookup_reloaded, distinct_run. constructor.
Qed.

(** X23. Durability: after [set(key, value)] with a truthy value and a key
    other than ["__proto__"], a store started from the snapshot holding the
    serialization of the store returns the value for [get(key)]. *)
Theorem set_survives_reload
  (key : string) (v : json) (cs : list (call * env)) (e e' : env) :
  key <> "__proto__" ->
  ToBoolean (VJson v) = true ->
  let o := store (after (set key v e (run cs initial))) in
  returned (get key e' (boot (snapshot_of o) initial)) = Some (VJson v).
Proof.
  intros Hk Hv o.
  assert (Hd : distinct_keys (own o)).
  { apply (distinct_run [(CallSet key v, e)]), distinct_run. constructor. }
  rewrite get_initialized by reflexivity. unfold Get.
  rewrite (lookup_reloaded _ _ Hd). unfold o.
  destruct (set_returns key v e (run cs initial)) as (_ & -> & _).
  rewrite (Put_lookup_same _ _ _ Hk). unfold logical_or. now rewrite Hv.
Qed.

Lemma set_survives_reload_witness :
  let o := store (after (set "user:7" (JStr "ada") dev_no_snapshot
                           (run [(CallSet "user:1" (JNum 1), dev_no_snapshot)]
                                initial))) in
  returned (get "user:7" dev_corrupt_snapshot (boot (snapshot_of o) initial)) =
    Some (VJson (JStr "ada")).
Proof.
  apply (set_survives_reload "user:7" (JStr "ada")
           [(CallSet "user:1" (JNum 1), dev_no_snapshot)]
           dev_no_snapshot dev_corrupt_snapshot).
  - discriminate.
  - reflexivity.
Defined.

(** X24. On a store with [Object.prototype] as its prototype and no
    property named ["__proto__"], [set("__proto__", object)] adds no
    property and changes nothing in what is serialized, but [get] then
    answers from the members of that object for every key the store has
    no property for. *)
Theorem set_proto_object_is_inherited
  (props ps : properties) (k : string) (x : json) (e e' : env) :
  lookup "__proto__" ps = None ->
  lookup k ps = None ->
  lookup k props = Some x ->
  let w := after (set "__proto__" (JObj props) e (holding ps)) in
  entries (store w) = ps /\
  JSON_stringify (store w) = JSON_stringify (store (holding ps)) /\
  returned (get k e' w) = Some (logical_or (VJson x) null).
Proof.
  intros Hp Hk Hx w.
  assert (Hi : isInitialized w = true) by apply set_returns.
  assert (Hs : store w = {| own := ps; proto := JsonPrototype (JObj props) |}).
  { unfold w. destruct (set_returns "__proto__" (JObj props) e (holding ps))
      as (_ & -> & _).
    rewrite boot_idle by reflexivity. unfold Put. simpl.
    apply has_false in Hp. now rewrite Hp. }
  rewrite (get_initialized _ _ _ Hi), Hs. unfold Get. simpl.
  now rewrite Hk, Hx.
Qed.

Lemma set_proto_object_is_inherited_witness :
  let w := after (set "__proto__" (JObj [("admin", JBool true)])
                    dev_no_snapshot (holding [("user:1", JNum 1)])) in
  entries (store w) = [("user:1", JNum 1)] /\
  JSON_stringify (store w) =
    JSON_stringify (store (holding [("user:1", JNum 1)])) /\
  returned (get "admin" dev_no_snapshot w) =
    Some (logical_or (VJson (JBool true)) null).
Proof.
  apply (set_proto_object_is_inherited [("admin", JBool true)]
           [("user:1", JNum 1)] "admin" (JBool true)
           dev_no_snapshot dev_no_snapshot); reflexivity.
Defined.

(** ** All calls *)


(** X26. Once the store is initialized, no call looks at the data
    directory or the snapshot file again: a call leaves the same world
    whatever [fs.mkdir] and [fs.readFile] would answer. *)
Theorem snapshot_read_only_at_start
  (c : call) (mk : bool) (file : option document) (e : env) (w : world) :
  isInitialized w = true ->
  perform c (with_files mk file e) w = perform c e w.
Proof.
  intros Hw. destruct c; simpl;
    rewrite ?get_returns, ?mget_returns, ?getByPrefix_returns, ?set_world,
      ?del_world, ?mset_world, ?mdel_world, ?saveStore_world;
    simpl; rewrite !(boot_idle _ w Hw); reflexivity.
Qed.

Lemma snapshot_read_only_at_start_witness :
  perform (CallSet "a" (JNum 1))
    (with_files true (Some (ObjectText [("b", JNum 2)])) dev_no_snapshot)
    (holding []) =
  perform (CallSet "a" (JNum 1)) dev_no_snapshot (holding []).
Proof.
  apply (snapshot_read_only_at_start (CallSet "a" (JNum 1)) true
           (Some (ObjectText [("b", JNum 2)])) dev_no_snapshot (holding [])).
  reflexivity.
Defined.

(** X27. In production a mutating call on an initialized store changes
    the store variable and nothing else: no write is attempted, so none
    can fail and nothing is logged. *)
Theorem production_calls_only_assign
  (k : string) (v : json) (ks : list string) (kvs : list (string * json))
  (e : env) (w : world) :
  production e = true ->
  isInitialized w = true ->
  perform (CallSet k v) e w = assigned (Put (store w) k v) w /\
  perform (CallDel k) e w = assigned (Delete (store w) k) w /\
  perform (CallMset kvs) e w = assigned (Put_all kvs (store w)) w /\
  perform (CallMdel ks) e w = assigned (Delete_all ks (store w)) w /\
  perform TimerSave e w = w.
Proof.
  intros Hp Hw. simpl.
  rewrite set_world, del_world, mset_world, mdel_world, saveStore_world.
  simpl. rewrite (boot_idle e w Hw). unfold saved. rewrite Hp. simpl. auto.
Qed.

Lemma production_calls_only_assign_witness :
  let e := {| production := true; mkdir_fails := true; data_file := None;
              writeFile_fails := true |} in
  let w := holding [("a", JNum 1)] in
  perform (CallSet "b" (JNum 2)) e w = assigned (Put (store w) "b" (JNum 2)) w /\
  perform (CallDel "b") e w = assigned (Delete (store w) "b") w /\
  perform (CallMset [("c", JNum 3)]) e w =
    assigned (Put_all [("c", JNum 3)] (store w)) w /\
  perform (CallMdel ["a"]) e w = assigned (Delete_all ["a"] (store w)) w /\
  perform TimerSave e w = w.
Proof.
  apply (production_calls_only_assign "b" (JNum 2) ["a"] [("c", JNum 3)]
           {| production := true; mkdir_fails := true; data_file := None;
              writeFile_fails := true |} (holding [("a", JNum 1)]));
    reflexivity.
Defined.

(** ** Array indices *)

Section Indices.

Implicit Types (c : ascii) (s t key : string) (d m n acc : N).

Lemma digit_bound c d : digit c = Some d -> (d <= 9)%N.
Proof.
  unfold digit. cbv zeta.
  destruct ((48 <=? N_of_ascii c)%N && (N_of_ascii c <=? 57)%N) eqn:H;
    [|discriminate].
  intros [= <-]. apply andb_true_iff in H as [H1 H2].
  apply N.leb_le in H1, H2. lia.
Qed.

Lemma digit_inj c1 c2 d : digit c1 = Some d -> digit c2 = Some d -> c1 = c2.
Proof.
  unfold digit. cbv zeta.
  destruct ((48 <=? N_of_ascii c1)%N && (N_of_ascii c1 <=? 57)%N) eqn:H1;
    [|discriminate].
  intros [= E1].
  destruct ((48 <=? N_of_ascii c2)%N && (N_of_ascii c2 <=? 57)%N) eqn:H2;
    [|discriminate].
  intros [= E2].
  apply andb_true_iff in H1 as [H1 _], H2 as [H2 _].
  apply N.leb_le in H1, H2.
  rewrite <- (ascii_N_embedding c1), <- (ascii_N_embedding c2).
  f_equal. lia.
Qed.

Lemma digits_acc s acc :
  digits s acc =
  match digits s 0 with
  | Some m => Some (acc * 10 ^ N.of_nat (String.length s) + m)%N
  | None => None
  end.
Proof.
  revert acc. induction s as [|c t IH]; intros acc; cbn [digits String.length].
  - f_equal. simpl. lia.
  - destruct (digit c) as [d|]; [|reflexivity].
    rewrite (IH (10 * acc + d)%N), (IH (10 * 0 + d)%N).
    destruct (digits t 0) as [m|]; [|reflexivity].
    f_equal. rewrite Nat2N.inj_succ, N.pow_succ_r'. lia.
Qed.

Lemma digits_cons c t m :
  digits (String c t) 0 = Some m ->
  exists d m',
    digit c = Some d /\ digits t 0 = Some m' /\
    m = (d * 10 ^ N.of_nat (String.length t) + m')%N.
Proof.
  cbn [digits]. destruct (digit c) as [d|]; [|discriminate].
  rewrite digits_acc. destruct (digits t 0) as [m'|]; [|discriminate].
  intros [= <-]. now exists d, m'.
Qed.

Lemma digits_bound s m :
  digits s 0 = Some m -> (m < 10 ^ N.of_nat (String.length s))%N.
Proof.
  revert m. induction s as [|c t IH]; intros m H.
  - injection H as <-. simpl. lia.
  - apply digits_cons in H as (d & m' & Hd & Ht & ->).
    apply digit_bound in Hd. apply IH in Ht.
    cbn [String.length]. rewrite Nat2N.inj_succ, N.pow_succ_r'. nia.
Qed.

Lemma digits_same_length s1 s2 m :
  String.length s1 = String.length s2 ->
  digits s1 0 = Some m -> digits s2 0 = Some m -> s1 = s2.
Proof.
  revert s2 m. induction s1 as [|c1 t1 IH]; intros [|c2 t2] m Hlen H1 H2;
    try discriminate; [reflexivity|].
  injection Hlen as Hlen.
  apply digits_cons in H1 as (d1 & m1 & Hd1 & Ht1 & ->).
  apply digits_cons in H2 as (d2 & m2 & Hd2 & Ht2 & Heq).
  pose proof (digits_bound _ _ Ht1) as B1.
  pose proof (digits_bound _ _ Ht2) as B2.
  rewrite Hlen in B1, Heq.
  set (P := (10 ^ N.of_nat (String.length t2))%N) in *.
  assert (Hd : d1 = d2).
  { destruct (N.lt_trichotomy d1 d2) as [Hlt|[Heq'|Hlt]]; [|exact Heq'|].
    - assert ((d1 + 1) * P <= d2 * P)%N by (apply N.mul_le_mono_r; lia). lia.
    - assert ((d2 + 1) * P <= d1 * P)%N by (apply N.mul_le_mono_r; lia). lia. }
  subst d2. assert (m1 = m2) as -> by lia.
  f_equal; [exact (digit_inj _ _ _ Hd1 Hd2) | exact (IH _ _ Hlen Ht1 Ht2)].
Qed.

Lemma array_index_zero t :
  array_index (String "0" t) =
  match t with EmptyString => Some 0%N | _ => None end.
Proof. now destruct t. Qed.

Lemma array_index_other c t :
  c <> "0"%char ->
  array_index (String c t) =
  match digits (String c t) 0 with
  | Some n => if (n <? 2 ^ 32 - 1)%N then Some n else None
  | None => None
  end.
Proof.
  intros Hne.
  destruct c as [[] [] [] [] [] [] [] []]; try reflexivity.
  now exfalso.
Qed.

(** An array index is ["0"], or digits with a first digit that is not 0. *)
Lemma array_index_cases key n :
  array_index key = Some n ->
  (key = "0" /\ n = 0%N) \/
  exists c t d,
    key = String c t /\ digit c = Some d /\ (1 <= d)%N /\
    digits key 0 = Some n.
Proof.
  destruct key as [|c t]; [discriminate|].
  destruct (Ascii.ascii_dec c "0") as [->|Hne].
  - rewrite array_index_zero. destruct t; [|discriminate].
    intros [= <-]. now left.
  - rewrite (array_index_other _ _ Hne).
    destruct (digits (String c t) 0) as [m|] eqn:Hm; [|discriminate].
    destruct (m <? 2 ^ 32 - 1)%N; [|discriminate]. intros [= <-].
    right. destruct (digits_cons _ _ _ Hm) as (d & m' & Hd & _ & _).
    exists c, t, d. repeat split; try assumption.
    destruct (N.eq_dec d 0) as [->|]; [|lia].
    exfalso. apply Hne. now apply (digit_inj _ _ 0%N Hd).
Qed.

Lemma digits_leading c t d m :
  digit c = Some d -> (1 <= d)%N -> digits (String c t) 0 = Some m ->
  (10 ^ N.of_nat (String.length t) <= m)%N.
Proof.
  intros Hd H1 Hm. apply digits_cons in Hm as (d' & m' & Hd' & _ & ->).
  rewrite Hd in Hd'. injection Hd' as <-. nia.
Qed.

(** No two keys are the same array index. *)
Lemma array_index_inj k1 k2 n :
  array_index k1 = Some n -> array_index k2 = Some n -> k1 = k2.
Proof.
  intros H1 H2.
  apply array_index_cases in H1 as [[-> ->]|(c1 & t1 & d1 & -> & Hd1 & Hp1 & Hm1)];
    apply array_index_cases in H2 as [[-> E]|(c2 & t2 & d2 & -> & Hd2 & Hp2 & Hm2)];
    try reflexivity.
  - pose proof (digits_leading _ _ _ _ Hd2 Hp2 Hm2) as L.
    assert (10 ^ N.of_nat (String.length t2) <> 0)%N
      by (apply N.pow_nonzero; lia). lia.
  - subst n. pose proof (digits_leading _ _ _ _ Hd1 Hp1 Hm1) as L.
    assert (10 ^ N.of_nat (String.length t1) <> 0)%N
      by (apply N.pow_nonzero; lia). lia.
  - apply (digits_same_length _ _ n); try assumption.
    pose proof (digits_leading _ _ _ _ Hd1 Hp1 Hm1) as L1.
    pose proof (digits_leading _ _ _ _ Hd2 Hp2 Hm2) as L2.
    pose proof (digits_bound _ _ Hm1) as B1.
    pose proof (digits_bound _ _ Hm2) as B2.
    cbn [String.length] in *.
    assert (A : (10 ^ N.of_nat (String.length t1)
                 < 10 ^ N.of_nat (S (String.length t2)))%N) by lia.
    assert (B : (10 ^ N.of_nat (String.length t2)
                 < 10 ^ N.of_nat (S (String.length t1)))%N) by lia.
    apply N.pow_lt_mono_r_iff in A, B; lia.
Qed.

End Indices.

(** ** The order of the entries *)

Section Order.

Implicit Types (k key : string) (v x : json) (ps : properties) (b : option N)
  (i j : N).

Lemma ascending_index b i k x t :
  array_index k = Some i ->
  ascending_from b ((k, x) :: t) = true <->
  below b i /\ ascending_from (Some i) t = true.
Proof.
  intros Hk. simpl. rewrite Hk. destruct b as [j|]; simpl.
  - rewrite andb_true_iff, N.ltb_lt. tauto.
  - tauto.
Qed.

Lemma ascending_index_inv b i k x t :
  array_index k = Some i ->
  ascending_from b ((k, x) :: t) = true ->
  below b i /\ ascending_from (Some i) t = true.
Proof. intros Hk. now apply ascending_index. Qed.

Lemma ascending_index_intro b i k x t :
  array_index k = Some i ->
  below b i /\ ascending_from (Some i) t = true ->
  ascending_from b ((k, x) :: t) = true.
Proof. intros Hk. now apply ascending_index. Qed.

Lemma ascending_plain b k x t :
  array_index k = None ->
  ascending_from b ((k, x) :: t) = forallb plain t.
Proof. intros Hk. simpl. now rewrite Hk. Qed.

Lemma plain_ascending b ps : forallb plain ps = true -> ascending_from b ps = true.
Proof.
  destruct ps as [|[k x] t]; [reflexivity|]. simpl. unfold plain at 1. simpl.
  destruct (array_index k); [discriminate|]. auto.
Qed.

Lemma ascending_weaken b i ps :
  ascending_from (Some i) ps = true ->
  match b with Some j => (j <= i)%N | None => True end ->
  ascending_from b ps = true.
Proof.
  destruct ps as [|[k x] t]; [reflexivity|].
  destruct (array_index k) as [j|] eqn:Hk.
  - intros H Hb. destruct (ascending_index_inv _ _ _ _ _ Hk H) as [Hlt Ht].
    apply (ascending_index_intro _ _ _ _ _ Hk). split; [|exact Ht]. destruct b; simpl in *; lia.
  - now rewrite !(ascending_plain _ _ _ _ Hk).
Qed.

Lemma plain_update key v ps :
  forallb plain (update key v ps) = forallb plain ps.
Proof.
  induction ps as [|[k x] t IH]; simpl; [reflexivity|].
  destruct (k =? key); simpl; now rewrite IH.
Qed.

Lemma ascending_update b key v ps :
  ascending_from b (update key v ps) = ascending_from b ps.
Proof.
  revert b. induction ps as [|[k x] t IH]; intros b; simpl; [reflexivity|].
  destruct (k =? key); simpl; destruct (array_index k);
    rewrite ?IH, ?plain_update; reflexivity.
Qed.

Lemma plain_remove key ps :
  forallb plain ps = true -> forallb plain (remove key ps) = true.
Proof.
  rewrite !forallb_forall. intros H p Hp. apply H.
  unfold remove in Hp. now apply filter_In in Hp.
Qed.

Lemma ascending_remove b key ps :
  ascending_from b ps = true -> ascending_from b (remove key ps) = true.
Proof.
  revert b. induction ps as [|[k x] t IH]; intros b H; [reflexivity|].
  simpl remove. destruct (array_index k) as [j|] eqn:Hk.
  - destruct (ascending_index_inv _ _ _ _ _ Hk H) as [Hb Ht].
    destruct (negb (k =? key)); simpl fst.
    + apply (ascending_index_intro _ _ _ _ _ Hk). auto.
    + apply (ascending_weaken _ j); [auto|]. destruct b; simpl in *; lia.
  - rewrite (ascending_plain _ _ _ _ Hk) in H.
    destruct (negb (k =? key)); simpl fst.
    + rewrite (ascending_plain _ _ _ _ Hk). now apply plain_remove.
    + now apply plain_ascending, plain_remove.
Qed.

Lemma ascending_append b key v ps :
  array_index key = None ->
  ascending_from b ps = true ->
  ascending_from b (ps ++ [(key, v)])%list = true.
Proof.
  intros Hkey. revert b. induction ps as [|[k x] t IH]; intros b H.
  - simpl. now rewrite Hkey.
  - simpl app. destruct (array_index k) as [j|] eqn:Hk.
    + destruct (ascending_index_inv _ _ _ _ _ Hk H) as [Hb Ht].
      apply (ascending_index_intro _ _ _ _ _ Hk). auto.
    + rewrite (ascending_plain _ _ _ _ Hk) in H.
      rewrite (ascending_plain _ _ _ _ Hk).
      rewrite forallb_app, H. simpl. unfold plain. simpl. now rewrite Hkey.
Qed.

Lemma ascending_insert b i key v ps :
  array_index key = Some i ->
  lookup key ps = None ->
  below b i ->
  ascending_from b ps = true ->
  ascending_from b (insert_index i key v ps) = true.
Proof.
  intros Hkey. revert b. induction ps as [|[k x] t IH]; intros b Hl Hb H.
  - simpl. rewrite Hkey. destruct b as [j|]; simpl in *; [|reflexivity].
    apply andb_true_iff. split; [now apply N.ltb_lt | reflexivity].
  - simpl in Hl. destruct (String.eqb_spec k key) as [|Hne]; [discriminate|].
    simpl insert_index. destruct (array_index k) as [j|] eqn:Hk.
    + destruct (ascending_index_inv _ _ _ _ _ Hk H) as [Hbj Ht].
      destruct (N.ltb_spec j i) as [Hlt|Hge].
      * apply (ascending_index_intro _ _ _ _ _ Hk). split; [exact Hbj|].
        now apply IH.
      * apply (ascending_index_intro _ _ _ _ _ Hkey). split; [exact Hb|].
        apply (ascending_index_intro _ _ _ _ _ Hk). split; [|exact Ht]. simpl.
        destruct (N.eq_dec j i) as [->|]; [|lia].
        exfalso. apply Hne. now apply (array_index_inj _ _ i).
    + rewrite (ascending_plain _ _ _ _ Hk) in H.
      apply (ascending_index_intro _ _ _ _ _ Hkey). split; [exact Hb|].
      now rewrite (ascending_plain _ _ _ _ Hk).
Qed.

Lemma order_update key v ps : entries_order ps -> entries_order (update key v ps).
Proof.
  intros [Hd Ha]. split.
  - unfold distinct_keys. now rewrite keys_update.
  - now rewrite ascending_update.
Qed.

Lemma order_create key v ps :
  lookup key ps = None -> entries_order ps -> entries_order (create key v ps).
Proof.
  intros Hl [Hd Ha]. split; [now apply distinct_create|].
  unfold create. destruct (array_index key) as [i|] eqn:Hi.
  - now apply ascending_insert.
  - now apply ascending_append.
Qed.

Lemma order_define key v ps : entries_order ps -> entries_order (define key v ps).
Proof.
  intros H. unfold define. destruct (has key ps) eqn:Hhas.
  - now apply order_update.
  - apply order_create; [now apply has_false | exact H].
Qed.

Lemma order_remove key ps : entries_order ps -> entries_order (remove key ps).
Proof.
  intros [Hd Ha]. split; [|now apply ascending_remove].
  unfold distinct_keys. rewrite keys_remove. now apply NoDup_filter.
Qed.

Lemma order_empty : entries_order [].
Proof. split; [constructor | reflexivity]. Qed.

Lemma order_Put (o : object) key v :
  entries_order (own o) -> entries_order (own (Put o key v)).
Proof.
  intros H. unfold Put. destruct (has key (own o)) eqn:Hhas; simpl.
  - now apply order_update.
  - destruct ((key =? "__proto__") && reaches_proto_setter (proto o)).
    + unfold set_prototype. now destruct v.
    + simpl. apply order_create; [now apply has_false | exact H].
Qed.

Lemma order_parsed props acc :
  entries_order acc ->
  entries_order (fold_left (fun a p => define (fst p) (snd p) a) props acc).
Proof.
  revert acc. induction props as [|[k v] t IH]; intros acc H; simpl; [exact H|].
  apply IH. now apply order_define.
Qed.

Lemma order_boot (e : env) (w : world) :
  entries_order (own (store w)) -> entries_order (own (store (boot e w))).
Proof.
  intros H. destruct e as [prod mk file wf], w as [s [|] c]; [exact H|].
  destruct prod; [apply order_empty|]. destruct mk; [apply order_empty|].
  destruct file as [[|props]|]; try apply order_empty.
  cbn. apply order_parsed, order_empty.
Qed.

Lemma order_perform (c : call) (e : env) (w : world) :
  entries_order (own (store w)) -> entries_order (own (store (perform c e w))).
Proof.
  intros H. apply (order_boot e) in H.
  destruct (perform_store c e w) as [_ ->].
  destruct c; try exact H.
  - now apply order_Put.
  - now apply order_remove.
  - unfold Put_all. revert H. generalize (store (boot e w)).
    induction keyValuePairs as [|[k v] t IH]; intros o H; simpl; [exact H|].
    apply IH. now apply order_Put.
  - unfold Delete_all. revert H. generalize (store (boot e w)).
    induction keys as [|k t IH]; intros o H; simpl; [exact H|].
    apply IH. now apply order_remove.
Qed.

Lemma order_run (cs : list (call * env)) :
  forall w, entries_order (own (store w)) ->
            entries_order (own (store (run cs w))).
Proof.
  induction cs as [|[c e] t IH]; intros w H; simpl; [exact H|].
  apply IH. now apply order_perform.
Qed.

End Order.

Section Reloading.

Implicit Types (k key : string) (v x : json) (ps acc : properties)
  (b : option N) (i j : N).

(** The keys before an array index are smaller array indices. *)
Lemma ascending_before_index b i k v acc t :
  array_index k = Some i ->
  ascending_from b (acc ++ (k, v) :: t)%list = true ->
  below b i /\
  Forall (fun p => exists j, array_index (fst p) = Some j /\ (j < i)%N) acc.
Proof.
  intros Hk. revert b. induction acc as [|[k' x'] l IH]; intros b H.
  - destruct (ascending_index_inv _ _ _ _ _ Hk H) as [Hb _].
    split; [exact Hb | constructor].
  - simpl app in H. destruct (array_index k') as [j|] eqn:Hk'.
    + destruct (ascending_index_inv _ _ _ _ _ Hk' H) as [Hb Hl].
      destruct (IH _ Hl) as [Hji Hall]. simpl in Hji. split.
      * destruct b; simpl in *; lia.
      * constructor; [exists j; auto | exact Hall].
    + rewrite (ascending_plain _ _ _ _ Hk') in H.
      rewrite forallb_app in H. apply andb_true_iff in H as [_ H].
      simpl in H. unfold plain in H. simpl in H. rewrite Hk in H.
      discriminate.
Qed.

Lemma insert_index_last i key v acc :
  Forall (fun p => exists j, array_index (fst p) = Some j /\ (j < i)%N) acc ->
  insert_index i key v acc = (acc ++ [(key, v)])%list.
Proof.
  induction 1 as [|[k x] l (j & Hj & Hlt) _ IH]; simpl; [reflexivity|].
  simpl in Hj. rewrite Hj. apply N.ltb_lt in Hlt. now rewrite Hlt, IH.
Qed.

Lemma define_appends key v acc t :
  entries_order (acc ++ (key, v) :: t)%list ->
  define key v acc = (acc ++ [(key, v)])%list.
Proof.
  intros [Hd Ha]. unfold distinct_keys in Hd. rewrite map_app in Hd.
  simpl in Hd. apply NoDup_remove_2 in Hd.
  assert (Hl : lookup key acc = None).
  { apply lookup_None_keys. intros Hin. apply Hd, in_or_app. now left. }
  unfold define. apply has_false in Hl. rewrite Hl. unfold create.
  destruct (array_index key) as [i|] eqn:Hi; [|reflexivity].
  apply insert_index_last.
  now apply (ascending_before_index None i key v acc t).
Qed.

(** Parsing the serialization of entries in order gives them back. *)
Lemma parsed_in_order ps :
  forall acc,
    entries_order (acc ++ ps)%list ->
    fold_left (fun a p => define (fst p) (snd p) a) ps acc = (acc ++ ps)%list.
Proof.
  induction ps as [|[k v] t IH]; intros acc H; simpl.
  - now rewrite app_nil_r.
  - rewrite (define_appends _ _ _ _ H).
    rewrite IH; rewrite <- app_assoc; [reflexivity | exact H].
Qed.

End Reloading.

(** X28. Whatever calls have run since the module was loaded, the entries
    of the store are in the order of [Object.entries]: the array-index keys
    first, by ascending number, then the other keys, no key twice. *)
Theorem entries_stay_in_order (cs : list (call * env)) :
  entries_order (entries (store (run cs initial))).
Proof. apply order_run, order_empty. Qed.

(** X29. A store started from a snapshot that holds the serialization of
    the store some calls have left has the same entries in the same order,
    so [getByPrefix] returns the same list for every prefix. *)
Theorem reload_restores_entries
  (cs : list (call * env)) (prefix : string) (e : env) :
  let o := store (run cs initial) in
  let reloaded := boot (snapshot_of o) initial in
  entries (store reloaded) = entries o /\
  getByPrefix prefix e reloaded =
    Returns (map to_entry
               (filter (fun p => startsWith (fst p) prefix) (entries o)))
            reloaded.
Proof.
  intros o reloaded.
  assert (He : entries (store reloaded) = entries o).
  { unfold reloaded. rewrite boot_snapshot_of. unfold entries. simpl.
    apply (parsed_in_order (own o) []). simpl.
    apply order_run, order_empty. }
  split; [exact He|].
  rewrite getByPrefix_returns, boot_idle by reflexivity. now rewrite He.
Qed.

Section Siblings.

Lemma startsWith_itself (key : string) : startsWith key key = true.
Proof. apply startsWith_append. exists "". induction key; simpl; congruence. Qed.

End Siblings.

(** X30. [set(key, value)] followed by [getByPrefix(key)] returns the pair
    of the key and the value as stored, falsy or not, for every key other
    than ["__proto__"]; no other element has that key. *)
Theorem set_then_scan_returns_value
  (key : string) (v : json) (cs : list (call * env)) (e1 e2 : env) :
  key <> "__proto__" ->
  exists found,
    getByPrefix key e2 (after (set key v e1 (run cs initial))) =
      Returns found (after (set key v e1 (run cs initial))) /\
    In {| key := key; value := v |} found /\
    forall x, In x found -> KvStore.key x = key -> value x = v.
Proof.
  intros Hk. set (w := after (set key v e1 (run cs initial))).
  assert (Hi : isInitialized w = true) by apply set_returns.
  assert (Hl : lookup key (own (store w)) = Some v).
  { unfold w. destruct (set_returns key v e1 (run cs initial)) as (_ & -> & _).
    now apply Put_lookup_same. }
  assert (Hd : distinct_keys (own (store w))).
  { apply (distinct_run [(CallSet key v, e1)]), distinct_run. constructor. }
  eexists. rewrite getByPrefix_returns, (boot_idle _ _ Hi).
  split; [reflexivity|]. split.
  - apply (in_map to_entry _ (key, v)). apply filter_In.
    split; [now apply lookup_In | apply startsWith_itself].
  - intros x Hx Hxk. apply in_map_iff in Hx as ([k' v'] & <- & Hin).
    apply filter_In in Hin as [Hin _]. simpl in *. subst k'.
    apply (lookup_In_distinct _ _ _ Hd) in Hin. congruence.
Qed.

Lemma set_then_scan_returns_value_witness :
  exists found,
    getByPrefix "views" dev_no_snapshot
      (after (set "views" (JNum 0) dev_no_snapshot (run [] initial))) =
      Returns found
        (after (set "views" (JNum 0) dev_no_snapshot (run [] initial))) /\
    In {| key := "views"; value := JNum 0 |} found /\
    forall x, In x found -> KvStore.key x = "views" -> value x = JNum 0.
Proof.
  apply (set_then_scan_returns_value "views" (JNum 0) [] dev_no_snapshot
           dev_no_snapshot).
  discriminate.
Defined.
